(** * The move-search engine of chess-multiplayer-ai

    A shallow embedding of the two variants of the search engine found in
    the repository,

    - [Engine]  : [src/lib/engine.ts], whose [getBestMove] returns a SAN
      string and whose search is called [minimax];
    - [ChessAI] : the variant that [App.tsx] imports as [lib/chess-ai],
      whose [getBestMove] returns [Move | null] and whose search is called
      [evaluateBoard];

    over an interface [Rules] that stands for the [Chess] object of the
    chess.js library, followed by the properties of the engine. *)

From Stdlib Require Import ZArith List Bool String QArith Qround Lia.
From Stdlib Require Import Orders OrdersTac.
Import ListNotations.
Local Open Scope Z_scope.

(** ** The chess.js collaborator *)

Inductive Color : Type := White | Black.

Inductive PieceType : Type := Pawn | Knight | Bishop | Rook | Queen | King.

(** An occupied entry of [game.board()]: [{ type, color }]. *)
Record Piece : Type := mkPiece { ptype : PieceType; pcolor : Color }.

(** [game.board()]: an array of rows, each an array of entries that are a
    piece or [null]. *)
Definition Board : Type := list (list (option Piece)).

(** The part of the [Chess] object that the engine uses.  A value of [Game]
    is one state of the mutable object; [move] and [undo] give the state
    after [game.move(m)] and [game.undo()]. *)
Class Rules : Type := {
  Game : Type;
  Move : Type;
  moves : Game -> list Move;
  move : Game -> Move -> Game;
  undo : Game -> Game;
  board : Game -> Board;
  turn : Game -> Color
}.

Definition opposite (c : Color) : Color :=
  match c with White => Black | Black => White end.

Definition Color_eqb (a b : Color) : bool :=
  match a, b with
  | White, White | Black, Black => true
  | _, _ => false
  end.

(** [board[i][j]].  chess.js always answers with 8 rows of 8 entries, so
    the defaults are never read by the loops below. *)
Definition at_ (b : Board) (i j : nat) : option Piece :=
  nth j (nth i b []) None.

(** ** JavaScript numbers that occur in the engine: integers and the two
    infinities. *)
Module Num.

Inductive t : Type := NegInf | Fin (z : Z) | PosInf.

Definition leb (a b : t) : bool :=
  match a, b with
  | NegInf, _ => true
  | _, PosInf => true
  | Fin x, Fin y => x <=? y
  | _, _ => false
  end.

Definition ltb (a b : t) : bool := negb (leb b a).

Definition max (a b : t) : t := if leb a b then b else a.
Definition min (a b : t) : t := if leb a b then a else b.

(** Unary minus. *)
Definition opp (a : t) : t :=
  match a with
  | NegInf => PosInf
  | Fin z => Fin (- z)
  | PosInf => NegInf
  end.

Definition le (a b : t) : Prop := leb a b = true.
Definition lt (a b : t) : Prop := ltb a b = true.

Definition compare (a b : t) : comparison :=
  if ltb a b then Lt else if ltb b a then Gt else Eq.

End Num.

(** ** [src/lib/engine.ts] *)
Module Engine.
Section WithRules.
Context {R : Rules}.

Definition PIECE_VALUES (type : PieceType) : Z :=
  match type with
  | Pawn => 10
  | Knight => 30
  | Bishop => 30
  | Rook => 50
  | Queen => 90
  | King => 900
  end.

Definition getPieceValue (piece : option Piece) : Z :=
  match piece with
  | None => 0
  | Some p =>
      let val := PIECE_VALUES (ptype p) in
      match pcolor p with White => val | Black => - val end
  end.

(** The two nested [for] loops over [i, j = 0 .. 7]. *)
Definition evaluateBoard (game : Game) : Z :=
  let board := board game in
  fold_left
    (fun totalEvaluation i =>
       fold_left
         (fun totalEvaluation j =>
            totalEvaluation + getPieceValue (at_ board i j))
         (seq 0 8) totalEvaluation)
    (seq 0 8) 0.

(** The bodies of the two [for (const move of moves)] loops of [minimax];
    [child game alpha beta] is the recursive call
    [minimax(game, depth - 1, alpha, beta, !isMaximizingPlayer)].  Each
    returns the final [bestEval] and the state the object is left in. *)
Section Loops.
Variable child : Game -> Z -> Z -> Z * Game.

Fixpoint maxLoop (moves : list Move) (game : Game)
         (alpha beta bestEval : Z) : Z * Game :=
  match moves with
  | [] => (bestEval, game)
  | move_ :: rest =>
      let game := move game move_ in
      let '(v, game) := child game alpha beta in
      let bestEval := Z.max bestEval v in
      let game := undo game in
      let alpha := Z.max alpha bestEval in
      if beta <=? alpha then (bestEval, game)
      else maxLoop rest game alpha beta bestEval
  end.

Fixpoint minLoop (moves : list Move) (game : Game)
         (alpha beta bestEval : Z) : Z * Game :=
  match moves with
  | [] => (bestEval, game)
  | move_ :: rest =>
      let game := move game move_ in
      let '(v, game) := child game alpha beta in
      let bestEval := Z.min bestEval v in
      let game := undo game in
      let beta := Z.min beta bestEval in
      if beta <=? alpha then (bestEval, game)
      else minLoop rest game alpha beta bestEval
  end.
End Loops.

Fixpoint minimax (game : Game) (depth : nat) (alpha beta : Z)
         (isMaximizingPlayer : bool) {struct depth} : Z * Game :=
  match depth with
  | O => (- evaluateBoard game, game)
  | S depth' =>
      let moves := moves game in
      if isMaximizingPlayer then
        maxLoop (fun g a b => minimax g depth' a b (negb isMaximizingPlayer))
                moves game alpha beta (-9999)
      else
        minLoop (fun g a b => minimax g depth' a b (negb isMaximizingPlayer))
                moves game alpha beta 9999
  end.

(** The root loop of [getBestMove].  [bestMove] is [None] while the
    variable still holds its initial [''] (no SAN string is empty). *)
Fixpoint rootLoop (depth : nat) (moves : list Move) (game : Game)
         (bestMove : option Move) (bestValue : Z) : option Move * Game :=
  match moves with
  | [] => (bestMove, game)
  | move_ :: rest =>
      let game := move game move_ in
      let '(boardValue, game) :=
        minimax game (depth - 1) (-10000) 10000 false in
      let game := undo game in
      if bestValue <? boardValue
      then rootLoop depth rest game (Some move_) boardValue
      else rootLoop depth rest game bestMove bestValue
    end.

(** The [boardValue] that the root loop computes for [move_] when it
    finds the object in state [game]. *)
Definition boardValue (game : Game) (depth : nat) (move_ : Move) : Z :=
  fst (minimax (move game move_) (depth - 1) (-10000) 10000 false).

(** [Math.floor(Math.random() * n)] for the draw [rand] of
    [Math.random()], taken as an exact rational. *)
Definition randomIndex (rand : Q) (n : nat) : nat :=
  Z.to_nat (Qfloor (rand * inject_Z (Z.of_nat n))).

(** [getBestMove(game, difficulty)].  The difficulty is the string the
    function receives at run time; [rand] is the draw of [Math.random()]
    that the Beginner branch consumes.  The result is the returned move
    ([None] for the empty string) and the state [game] is left in. *)
Definition getBestMove (game : Game) (difficulty : string) (rand : Q)
  : option Move * Game :=
  let moves := moves game in
  if (List.length moves =? 0)%nat then (None, game)
  else if (difficulty =? "Beginner")%string then
    (nth_error moves (randomIndex rand (List.length moves)), game)
  else
    let depth :=
      if (difficulty =? "Easy")%string then 1%nat
      else if (difficulty =? "Hard")%string then 2%nat
      else 3%nat in
    let '(bestMove, game) := rootLoop depth moves game None (-9999) in
    (match bestMove with
     | Some m => Some m
     | None => nth_error moves 0
     end, game).

End WithRules.
End Engine.

(** ** [lib/chess-ai.ts] *)
Module ChessAI.
Section WithRules.
Context {R : Rules}.

Definition pieceValues (type : PieceType) : Z :=
  match type with
  | Pawn => 10
  | Rook => 50
  | Knight => 30
  | Bishop => 30
  | Queen => 90
  | King => 900
  end.

Definition calculatePosition (game : Game) : Z :=
  let board := board game in
  let totalValue :=
    fold_left
      (fun totalValue i =>
         fold_left
           (fun totalValue j =>
              match at_ board i j with
              | Some piece =>
                  let val := pieceValues (ptype piece) in
                  totalValue
                  + match pcolor piece with White => val | Black => - val end
              | None => totalValue
              end)
           (seq 0 8) totalValue)
      (seq 0 8) 0 in
  match turn game with White => totalValue | Black => - totalValue end.

(** The two loops of [evaluateBoard]; [child game alpha beta] is the
    recursive call [evaluateBoard(game, depth - 1, alpha, beta,
    !isMaximizing)]. *)
Section Loops.
Variable child : Game -> Num.t -> Num.t -> Num.t * Game.

Fixpoint maxLoop (moves : list Move) (game : Game)
         (alpha beta bestValue : Num.t) : Num.t * Game :=
  match moves with
  | [] => (bestValue, game)
  | move_ :: rest =>
      let game := move game move_ in
      let '(v, game) := child game alpha beta in
      let bestValue := Num.max bestValue v in
      let game := undo game in
      let alpha := Num.max alpha bestValue in
      if Num.leb beta alpha then (bestValue, game)
      else maxLoop rest game alpha beta bestValue
  end.

Fixpoint minLoop (moves : list Move) (game : Game)
         (alpha beta bestValue : Num.t) : Num.t * Game :=
  match moves with
  | [] => (bestValue, game)
  | move_ :: rest =>
      let game := move game move_ in
      let '(v, game) := child game alpha beta in
      let bestValue := Num.min bestValue v in
      let game := undo game in
      let beta := Num.min beta bestValue in
      if Num.leb beta alpha then (bestValue, game)
      else minLoop rest game alpha beta bestValue
  end.
End Loops.

Fixpoint evaluateBoard (game : Game) (depth : nat) (alpha beta : Num.t)
         (isMaximizing : bool) {struct depth} : Num.t * Game :=
  match depth with
  | O => (Num.Fin (calculatePosition game), game)
  | S depth' =>
      let moves := moves game in
      if isMaximizing then
        maxLoop (fun g a b => evaluateBoard g depth' a b (negb isMaximizing))
                moves game alpha beta Num.NegInf
      else
        minLoop (fun g a b => evaluateBoard g depth' a b (negb isMaximizing))
                moves game alpha beta Num.PosInf
  end.

(** The root loop of [getBestMove]; [bestMove = None] is [null]. *)
Fixpoint rootLoop (depth : nat) (moves : list Move) (game : Game)
         (bestMove : option Move) (bestValue : Num.t)
  : option Move * Game :=
  match moves with
  | [] => (bestMove, game)
  | move_ :: rest =>
      let game := move game move_ in
      let '(v, game) :=
        evaluateBoard game (depth - 1) Num.NegInf Num.PosInf false in
      let boardValue := Num.opp v in
      let game := undo game in
      if Num.ltb bestValue boardValue
      then rootLoop depth rest game (Some move_) boardValue
      else rootLoop depth rest game bestMove bestValue
    end.

(** The [boardValue] that the root loop computes for [move_] when it
    finds the object in state [game]. *)
Definition boardValue (game : Game) (depth : nat) (move_ : Move) : Num.t :=
  Num.opp (fst (evaluateBoard (move game move_) (depth - 1)
                              Num.NegInf Num.PosInf false)).

(** [getBestMove(game, difficulty)]; [None] is the returned [null]. *)
Definition getBestMove (game : Game) (difficulty : string) (rand : Q)
  : option Move * Game :=
  let moves := moves game in
  if (List.length moves =? 0)%nat then (None, game)
  else if (difficulty =? "Beginner")%string then
    (nth_error moves (Engine.randomIndex rand (List.length moves)), game)
  else
    let depth :=
      if (difficulty =? "Easy")%string then 1%nat
      else if (difficulty =? "Hard")%string then 2%nat
      else 3%nat in
    let '(bestMove, game) := rootLoop depth moves game None Num.NegInf in
    (match bestMove with
     | Some m => Some m
     | None => nth_error moves 0
     end, game).

End WithRules.
End ChessAI.

(** ** Notions of the specification *)

(** The material table of the specification. *)
Definition pieceValue (t : PieceType) : Z :=
  match t with
  | Pawn => 10 | Knight => 30 | Bishop => 30
  | Rook => 50 | Queen => 90 | King => 900
  end.

(** Piece value if White piece, negative piece value if Black piece, 0 if
    empty. *)
Definition squareScore (sq : option Piece) : Z :=
  match sq with
  | None => 0
  | Some p =>
      match pcolor p with
      | White => pieceValue (ptype p)
      | Black => - pieceValue (ptype p)
      end
  end.

(** The sum of [squareScore] over all squares. *)
Definition materialSum (b : Board) : Z :=
  fold_right Z.add 0 (map squareScore (List.concat b)).

(** The material balance seen from one side. *)
Definition sideScore (side : Color) (b : Board) : Z :=
  match side with White => materialSum b | Black => - materialSum b end.

Definition isKingOf (c : Color) (sq : option Piece) : bool :=
  match sq with
  | Some (mkPiece King c') => Color_eqb c c'
  | _ => false
  end.

Definition kings (c : Color) (b : Board) : nat :=
  List.length (filter (isKingOf c) (List.concat b)).

Definition Board8x8 (b : Board) : Prop :=
  List.length b = 8%nat /\ Forall (fun row => List.length row = 8%nat) b.

(** The board of a legal chess position: 64 squares, one king a side. *)
Definition ChessBoard (b : Board) : Prop :=
  Board8x8 b /\ kings White b = 1%nat /\ kings Black b = 1%nat.

Definition chessBoardb (b : Board) : bool :=
  ((List.length b =? 8)%nat
   && forallb (fun row => (List.length row =? 8)%nat) b
   && (kings White b =? 1)%nat
   && (kings Black b =? 1)%nat)%bool.

Section Contract.
Context {R : Rules}.

(** [game.undo()] restores the state before the last [game.move(m)]. *)
Definition UndoRestores : Prop :=
  forall (g : Game) (m : Move), In m (moves g) -> undo (move g m) = g.

(** The side to move changes with every legal move. *)
Definition TurnsAlternate : Prop :=
  forall (g : Game) (m : Move),
    In m (moves g) -> turn (move g m) = opposite (turn g).

(** The positions that legal moves lead to from [g]. *)
Inductive Reach (g : Game) : Game -> Prop :=
| Reach_here : Reach g g
| Reach_move : forall m g',
    In m (moves g) -> Reach (move g m) g' -> Reach g g'.

(** Every position met from [g] on is a legal chess position. *)
Definition LegalFrom (g : Game) : Prop :=
  forall g', Reach g g' -> ChessBoard (board g').

End Contract.

(** ** Plain fixed-depth minimax, without pruning, over the same move
    order; the reference the pruned searches are compared with. *)
Module Plain.
Section WithRules.
Context {R : Rules}.

Section Generic.
Variable V : Type.
Variables (vmax vmin : V -> V -> V) (lo hi : V) (leaf : Game -> V).

Fixpoint value (game : Game) (depth : nat) (isMaximizing : bool) : V :=
  match depth with
  | O => leaf game
  | S depth' =>
      if isMaximizing then
        fold_left
          (fun best m => vmax best (value (move game m) depth' false))
          (moves game) lo
      else
        fold_left
          (fun best m => vmin best (value (move game m) depth' true))
          (moves game) hi
  end.

Variable gtb : V -> V -> bool.

(** The root loop over given scores: the running best is replaced when a
    score is strictly above it ([gtb]). *)
Fixpoint firstBest (score : Move -> V) (ms : list Move)
         (bestMove : option Move) (bestValue : V) : option Move :=
  match ms with
  | [] => bestMove
  | m :: rest =>
      if gtb (score m) bestValue
      then firstBest score rest (Some m) (score m)
      else firstBest score rest bestMove bestValue
  end.

Variables (vlt vle : V -> V -> Prop).

(** [m] is the first move of [ms] with the greatest score: the moves
    before it score strictly less, the moves after it no more. *)
Definition FirstMax (score : Move -> V) (ms : list Move) (m : Move)
  : Prop :=
  exists pre post,
    ms = pre ++ m :: post
    /\ (forall x, In x pre -> vlt (score x) (score m))
    /\ (forall x, In x post -> vle (score x) (score m)).
End Generic.

Arguments value {V} vmax vmin lo hi leaf game depth isMaximizing.
Arguments firstBest {V} gtb score ms bestMove bestValue.
Arguments FirstMax {V} vlt vle score ms m.

(** Depth of the search for a difficulty other than Beginner. *)
Definition depthOf (difficulty : string) : nat :=
  if (difficulty =? "Easy")%string then 1%nat
  else if (difficulty =? "Hard")%string then 2%nat
  else 3%nat.

(** The search of [engine.ts] without the window and the cutoff. *)
Definition engineValue : Game -> nat -> bool -> Z :=
  value Z.max Z.min (-9999) 9999 (fun g => - Engine.evaluateBoard g).

(** The root loop of [engine.ts] over the plain values. *)
Definition engineChoice (game : Game) (difficulty : string)
  : option Move :=
  let score m := engineValue (move game m) (depthOf difficulty - 1) false in
  match firstBest (fun a b => b <? a) score (moves game) None (-9999) with
  | Some m => Some m
  | None => nth_error (moves game) 0
  end.

(** The search of [chess-ai.ts] without the window and the cutoff. *)
Definition chessAIValue : Game -> nat -> bool -> Num.t :=
  value Num.max Num.min Num.NegInf Num.PosInf
        (fun g => Num.Fin (ChessAI.calculatePosition g)).

(** The root loop of [chess-ai.ts] over the plain values. *)
Definition chessAIChoice (game : Game) (difficulty : string)
  : option Move :=
  let score m :=
    Num.opp (chessAIValue (move game m) (depthOf difficulty - 1) false) in
  match firstBest (fun a b => Num.ltb b a) score (moves game)
                  None Num.NegInf with
  | Some m => Some m
  | None => nth_error (moves game) 0
  end.

(** The plain minimax value of the material balance seen from [side],
    with [lo] and [hi] for the positions without moves. *)
Definition sideValue (lo hi : Num.t) (side : Color)
  : Game -> nat -> bool -> Num.t :=
  value Num.max Num.min lo hi (fun g => Num.Fin (sideScore side (board g))).

(** [m] is a root move of [game] with the greatest depth-limited minimax
    value for [side], the root being the maximizer. *)
Definition BestFor (lo hi : Num.t) (side : Color) (game : Game)
           (depth : nat) (m : Move) : Prop :=
  In m (moves game)
  /\ forall m', In m' (moves game) ->
                Num.le (sideValue lo hi side (move game m') (depth - 1) false)
                       (sideValue lo hi side (move game m) (depth - 1) false).

End WithRules.

Arguments value {R V} vmax vmin lo hi leaf game depth isMaximizing.
Arguments firstBest {R V} gtb score ms bestMove bestValue.
Arguments FirstMax {R V} vlt vle score ms m.

End Plain.

(** ** What a pruned search tells about the plain value

    A search with window [(alpha, beta)] that returns [r] where the plain
    value is [v]: exact inside the window, and on the same side of the
    window outside it. *)
Definition WindowZ (alpha beta v r : Z) : Prop :=
  (v <= alpha -> r <= alpha)
  /\ (alpha < v < beta -> r = v)
  /\ (beta <= v -> beta <= r).

Definition WindowNum (alpha beta v r : Num.t) : Prop :=
  (Num.le v alpha -> Num.le r alpha)
  /\ (Num.lt alpha v -> Num.lt v beta -> r = v)
  /\ (Num.le beta v -> Num.le beta r).

(** ** A small instance of the interface: positions as paths in a game tree

    A position is the list of the moves played so far, the latest first; a
    move is the index of a branch.  [arity] gives the number of legal moves
    of a position and [shape] its board. *)
Module PathGame.

Inductive Shape : Type := Level | WhiteUpPawn | WhiteUpQueen.

Definition wK : Piece := mkPiece King White.
Definition bK : Piece := mkPiece King Black.

Definition row (ps : list Piece) : list (option Piece) :=
  List.map Some ps ++ repeat None (8 - List.length ps).

(** Both kings on their home files and at most one further white piece. *)
Definition shapeBoard (s : Shape) : Board :=
  [ row [bK]; row []; row []; row []; row []; row [];
    row match s with
        | Level => []
        | WhiteUpPawn => [mkPiece Pawn White]
        | WhiteUpQueen => [mkPiece Queen White]
        end;
    row [wK] ].

Section Tree.
Variables (arity : list nat -> nat) (shape : list nat -> Shape).
Variable first : Color.

Definition rules : Rules :=
  {| Game := list nat;
     Move := nat;
     moves := fun p => seq 0 (arity p);
     move := fun p i => i :: p;
     undo := fun p => List.tl p;
     board := fun p => shapeBoard (shape p);
     turn := fun p =>
               if Nat.even (List.length p) then first
               else opposite first |}.
End Tree.

(** Two moves at the root; the first wins a pawn for White. *)
Definition pawnArity (p : list nat) : nat :=
  match p with [] => 2 | _ => 0 end%nat.
Definition pawnShape (p : list nat) : Shape :=
  match p with [0%nat] => WhiteUpPawn | _ => Level end.

(** Two moves at the root and one reply to each; after the second root
    move the reply leaves White a queen up. *)
Definition queenArity (p : list nat) : nat :=
  match p with [] => 2 | [_] => 1 | _ => 0 end%nat.
Definition queenShape (p : list nat) : Shape :=
  match p with [_; 1%nat] => WhiteUpQueen | _ => Level end.

(** Bare kings and no legal move. *)
Definition noArity (p : list nat) : nat := 0%nat.
Definition levelShape (p : list nat) : Shape := Level.

(** White is a pawn up in every position, and there is always one move. *)
Definition oneArity (p : list nat) : nat := 1%nat.
Definition upShape (p : list nat) : Shape := WhiteUpPawn.

Definition pawnGame : Rules := rules pawnArity pawnShape White.
Definition queenGame : Rules := rules queenArity queenShape Black.
Definition deadGame : Rules := rules noArity levelShape Black.
Definition upGame : Rules := rules oneArity upShape White.

End PathGame.

(** ** Notions used by the further properties *)

(** The board with the colours of all pieces exchanged. *)
Definition swapPiece (p : Piece) : Piece :=
  mkPiece (ptype p) (opposite (pcolor p)).

Definition swapBoard (b : Board) : Board :=
  List.map (List.map (option_map swapPiece)) b.

(** Two positions without moves, each the other with the colours of the
    pieces and the side to move exchanged. *)
Module MirrorGame.

Definition rules : Rules :=
  {| Game := bool;
     Move := nat;
     moves := fun _ => [];
     move := fun g _ => g;
     undo := fun g => g;
     board := fun g =>
                if g then PathGame.shapeBoard PathGame.WhiteUpQueen
                else swapBoard (PathGame.shapeBoard PathGame.WhiteUpQueen);
     turn := fun g => if g then White else Black |}.

End MirrorGame.

(** A path game with Black to move and two moves at the root: the first
    leaves White one reply, the second leaves White without a move. *)
Module MateGame.

Definition arity (p : list nat) : nat :=
  match p with [] => 2 | [0%nat] => 1 | _ => 0 end%nat.

Definition rules : Rules :=
  PathGame.rules arity PathGame.levelShape Black.

End MateGame.

(** [P] holds of every position that legal moves reach from [g] in
    exactly [d] plies. *)
Fixpoint AtDepth {R : Rules} (d : nat) (P : Game -> Prop) (g : Game) : Prop :=
  match d with
  | O => P g
  | S d' => forall m, In m (moves g) -> AtDepth d' P (move g m)
  end.

(** Two positions look the same to a search of depth [d]: at depth 0 they
    have the same board and the same side to move; above, they have as
    many moves, and the positions after their moves, taken in order, look
    the same to a search of one ply less. *)
Fixpoint SameTo {R : Rules} (d : nat) (g1 g2 : Game) : Prop :=
  match d with
  | O => board g1 = board g2 /\ turn g1 = turn g2
  | S d' =>
      Forall2 (fun m1 m2 => SameTo d' (move g1 m1) (move g2 m2))
              (moves g1) (moves g2)
  end.

(** The list with its element at index [n] changed by [f]; a list that is
    too short is left as it is. *)
Fixpoint update {A : Type} (l : list A) (n : nat) (f : A -> A) : list A :=
  match l, n with
  | [], _ => []
  | x :: l', O => f x :: l'
  | x :: l', S n' => x :: update l' n' f
  end.

(** The board with [sq] on the square of row [i] and column [j]. *)
Definition setSquare (b : Board) (i j : nat) (sq : option Piece) : Board :=
  update b i (fun row => update row j (fun _ => sq)).

Definition PieceType_eqb (a b : PieceType) : bool :=
  match a, b with
  | Pawn, Pawn | Knight, Knight | Bishop, Bishop
  | Rook, Rook | Queen, Queen | King, King => true
  | _, _ => false
  end.

Definition isPiece (c : Color) (t : PieceType) (sq : option Piece) : bool :=
  match sq with
  | Some p => (Color_eqb c (pcolor p) && PieceType_eqb t (ptype p))%bool
  | None => false
  end.

(** The number of pieces of colour [c] and type [t] on the board. *)
Definition countPieces (c : Color) (t : PieceType) (b : Board) : Z :=
  Z.of_nat (List.length (filter (isPiece c t) (List.concat b))).

(** White's pieces of type [t] less Black's. *)
Definition surplus (t : PieceType) (b : Board) : Z :=
  countPieces White t b - countPieces Black t b.

(** ** The callers of [getBestMove] in the two [App] components

    [game.game_over()] (chess.js 0.x) or [game.isGameOver()] (1.x), the
    one further method of the [Chess] object that the effect uses. *)
Class Status (R : Rules) : Type := {
  game_over : Game -> bool
}.


(** What the AI effect does with [makeMove]. *)
Inductive Call {R : Rules} : Type :=
| NoCall : Call
| MakeMove (arg : option Move) : Call.

Module App.
Section WithRules.
Context {R : Rules} {S : Status R}.

(** The guard of both effects:
    [mode === 'AI' && game.turn() === 'b' && !game.game_over()]. *)
Definition aiGuard (mode : string) (game : Game) : bool :=
  ((mode =? "AI")%string
   && Color_eqb (turn game) Black
   && negb (game_over game))%bool.

(** The effect of the component that imports [engine.ts], with the
    callback it hands to [setTimeout], for the [game] of the render that
    ran the effect:
    [const bestMove = getBestMove(game, difficulty); makeMove(bestMove)]. *)
Definition engineEffect (mode : string) (game : Game) (difficulty : string)
           (rand : Q) : Call :=
  if aiGuard mode game then
    let '(bestMove, _) := Engine.getBestMove game difficulty rand in
    MakeMove bestMove
  else NoCall.


End WithRules.
End App.

(** The game is over exactly when there is no legal move: a [Status] for
    a game without draws. *)
Definition stuckStatus (R : Rules) : Status R :=
  {| game_over := fun g => match moves g with [] => true | _ => false end |}.

(** ** The move list and the squares of the App components *)

From Stdlib Require Ascii DecimalString.

(** [array.map((x, i) => f(x, i))], counting from [i]. *)
Fixpoint mapFrom {A B : Type} (i : nat) (f : A -> nat -> B) (l : list A)
  : list B :=
  match l with
  | [] => []
  | x :: l' => f x i :: mapFrom (S i) f l'
  end.

(** [String.fromCharCode(n)], for the codes of one byte. *)
Definition fromCharCode (n : Z) : string :=
  String (Ascii.ascii_of_nat (Z.to_nat n)) EmptyString.

(** An integer as JavaScript appends it to a string. *)
Definition numberToString (n : Z) : string :=
  DecimalString.NilZero.string_of_int (Z.to_int n).

Module History.

(** [acc[acc.length - 1].push(move)]; on an empty [acc] the receiver is
    [undefined] and the call throws, which is [None]. *)
Definition pushLast (acc : list (list string)) (move : string)
  : option (list (list string)) :=
  match rev acc with
  | [] => None
  | last :: front => Some (rev front ++ [last ++ [move]])
  end.

(** The callback of [moveHistory.reduce]:
    [if (i % 2 === 0) acc.push([move]);
     else acc[acc.length - 1].push(move);
     return acc]. *)
Definition pairUp (acc : list (list string)) (move : string) (i : nat)
  : option (list (list string)) :=
  if (i mod 2 =? 0)%nat then Some (acc ++ [[move]]) else pushLast acc move.

(** [reduce] over the moves from index [i] on. *)
Fixpoint reduceFrom (i : nat) (acc : list (list string))
         (moveHistory : list string) : option (list (list string)) :=
  match moveHistory with
  | [] => Some acc
  | move :: rest =>
      match pairUp acc move i with
      | Some acc' => reduceFrom (S i) acc' rest
      | None => None
      end
  end.

(** [moveHistory.reduce(..., [])]: the rows of the Match Logs panel. *)
Definition rounds (moveHistory : list string) : option (list (list string)) :=
  reduceFrom 0 [] moveHistory.

(** The number on the ROUNDS badge: [Math.ceil(moveHistory.length / 2)]. *)
Definition roundsBadge (moveHistory : list string) : Z :=
  Qceiling (inject_Z (Z.of_nat (List.length moveHistory)) / 2).

(** The number in front of row [i] of the panel: [i + 1]. *)
Definition rowNumber (i : nat) : Z := Z.of_nat i + 1.

(** The label of move [i] in the move strip of the component that imports
    [engine.ts]: [Math.floor(i/2) + 1] and [i%2===0?'.':'...']. *)
Definition moveLabel (i : nat) : Z * string :=
  (Qfloor (inject_Z (Z.of_nat i) / 2) + 1,
   if (i mod 2 =? 0)%nat then "."%string else "..."%string).

End History.

Module Squares.

(** The cell of [board.flat().map((piece, i) => ...)]:
    [row = Math.floor(i / 8)], [col = i % 8],
    [squareName = String.fromCharCode(97 + col) + (8 - row)],
    [isDark = (row + col) % 2 === 1]. *)
Definition flatCell (i : nat) : string * bool :=
  let row := Qfloor (inject_Z (Z.of_nat i) / 8) in
  let col := Z.rem (Z.of_nat i) 8 in
  ((fromCharCode (97 + col) ++ numberToString (8 - row))%string,
   Z.rem (row + col) 2 =? 1).

Definition flatCells (board : Board) : list (string * bool) :=
  mapFrom 0 (fun _ i => flatCell i) (List.concat board).

(** The cell of [board.map((row, rowIndex) => row.map((piece, colIndex) =>
    ...))]:
    [squareName = String.fromCharCode(97 + colIndex) + (8 - rowIndex)],
    [isDark = (rowIndex + colIndex) % 2 === 1]. *)
Definition gridCell (rowIndex colIndex : nat) : string * bool :=
  ((fromCharCode (97 + Z.of_nat colIndex)
    ++ numberToString (8 - Z.of_nat rowIndex))%string,
   Z.rem (Z.of_nat rowIndex + Z.of_nat colIndex) 2 =? 1).

Definition gridCells (board : Board) : list (string * bool) :=
  List.concat
    (mapFrom 0 (fun row rowIndex =>
                  mapFrom 0 (fun _ colIndex => gridCell rowIndex colIndex) row)
             board).

Definition files : list string :=
  ["a"; "b"; "c"; "d"; "e"; "f"; "g"; "h"]%string.

(** The cell of [renderBoard] at the loop variables [i] and [j]:
    [square = files[j] + (i + 1)], [isDark = (i + j) % 2 === 0]. *)
Definition loopCell (i j : nat) : string * bool :=
  ((nth j files "undefined" ++ numberToString (Z.of_nat i + 1))%string,
   Z.rem (Z.of_nat i + Z.of_nat j) 2 =? 0).

(** [renderBoard]: [for (let i = 7; i >= 0; i--)
    for (let j = 0; j < 8; j++) board.push(...)]. *)
Definition renderBoard : list (string * bool) :=
  flat_map (fun i => map (fun j => loopCell i j) (seq 0 8)) (rev (seq 0 8)).

End Squares.

(** The rows that [rounds] is to build, two moves at a time. *)
Fixpoint pairsOf (l : list string) : list (list string) :=
  match l with
  | [] => []
  | [a] => [[a]]
  | a :: b :: rest => [a; b] :: pairsOf rest
  end.

(** * Properties *)

(** ** Numbers *)

Lemma Num_leb_refl (a : Num.t) : Num.leb a a = true.
Proof. destruct a; cbn; auto. apply Z.leb_refl. Qed.

(** The order of [Num.t] in the form that the order tactic of the
    Standard Library works with. *)
Module NumOT <: OrderedTypeFull.

Definition t := Num.t.
Definition eq := @Logic.eq Num.t.
Definition eq_equiv : Equivalence eq := eq_equivalence.
Definition lt := Num.lt.
Definition le := Num.le.
Definition compare := Num.compare.

Lemma lt_strorder : StrictOrder lt.
Proof.
  split.
  - intros [| |]; unfold complement, lt, Num.lt, Num.ltb; cbn; try congruence.
    rewrite Z.leb_refl. cbn. congruence.
  - intros [|x|] [|y|] [|z|]; unfold lt, Num.lt, Num.ltb; cbn; try congruence.
    rewrite !negb_true_iff, !Z.leb_gt. lia.
Qed.

Lemma lt_compat : Proper (eq ==> eq ==> iff) lt.
Proof. intros a b -> c d ->. tauto. Qed.

Lemma compare_spec :
  forall x y, CompareSpec (eq x y) (lt x y) (lt y x) (compare x y).
Proof.
  intros [|x|] [|y|];
    unfold compare, Num.compare, lt, eq, Num.lt, Num.ltb; cbn;
    try (constructor; reflexivity).
  destruct (Z.leb_spec y x), (Z.leb_spec x y); cbn; constructor; auto.
  f_equal; lia.
Qed.

Lemma eq_dec : forall x y : t, {eq x y} + {~ eq x y}.
Proof. unfold eq. decide equality. apply Z.eq_dec. Qed.

Lemma le_lteq : forall x y, le x y <-> lt x y \/ eq x y.
Proof.
  intros [|x|] [|y|]; unfold le, lt, eq, Num.le, Num.lt, Num.ltb; cbn;
    try (intuition congruence).
  rewrite negb_true_iff, Z.leb_gt, Z.leb_le. split.
  - intros H. destruct (Z.eq_dec x y); [right; congruence | left; lia].
  - intros [H|H]; [lia | injection H; lia].
Qed.

End NumOT.

Module NumTac := OTF_to_OrderTac NumOT.

Lemma Num_max_spec (a b : Num.t) :
  (Num.le a b /\ Num.max a b = b) \/ (Num.lt b a /\ Num.max a b = a).
Proof.
  unfold Num.max, Num.le, Num.lt, Num.ltb.
  destruct (Num.leb a b); cbn; auto.
Qed.

Lemma Num_min_spec (a b : Num.t) :
  (Num.le a b /\ Num.min a b = a) \/ (Num.lt b a /\ Num.min a b = b).
Proof.
  unfold Num.min, Num.le, Num.lt, Num.ltb.
  destruct (Num.leb a b); cbn; auto.
Qed.

Lemma Num_le_or_lt (a b : Num.t) : Num.le a b \/ Num.lt b a.
Proof.
  unfold Num.le, Num.lt, Num.ltb. destruct (Num.leb a b); cbn; auto.
Qed.

(** Goals about the order, [Num.max] and [Num.min]: name the greater
    (smaller) of every pair, decide the premises of the window relation,
    and leave the rest to the order tactic. *)
Ltac num_split_max a b :=
  let H := fresh in
  destruct (Num_max_spec a b) as [[? H]|[? H]]; rewrite H in *; clear H.

Ltac num_split_min a b :=
  let H := fresh in
  destruct (Num_min_spec a b) as [[? H]|[? H]]; rewrite H in *; clear H.

Ltac num_order :=
  unfold WindowNum in *;
  repeat match goal with
         | H : _ /\ _ |- _ => destruct H
         end;
  repeat match goal with
         | |- context [Num.max ?a ?b] => num_split_max a b
         | H0 : context [Num.max ?a ?b] |- _ => num_split_max a b
         | |- context [Num.min ?a ?b] => num_split_min a b
         | H0 : context [Num.min ?a ?b] |- _ => num_split_min a b
         end;
  repeat match goal with
         | H : Num.le ?x ?y -> _ |- _ =>
             let L := fresh in
             destruct (Num_le_or_lt x y) as [L|L];
             [specialize (H L) | clear H]
         | H : Num.lt ?x ?y -> _ |- _ =>
             let L := fresh in
             destruct (Num_le_or_lt y x) as [L|L];
             [clear H | specialize (H L)]
         end;
  change Num.le with NumOT.le in *; change Num.lt with NumOT.lt in *;
  repeat split; intros; first [assumption | reflexivity | NumTac.order].

(** The window relation on [Num.t], one fact at a time. *)
Section NumWindow.
Variables alpha beta : Num.t.

Lemma Num_max_assoc (a b c : Num.t) :
  Num.max a (Num.max b c) = Num.max (Num.max a b) c.
Proof. num_order. Qed.

Lemma Num_min_assoc (a b c : Num.t) :
  Num.min a (Num.min b c) = Num.min (Num.min a b) c.
Proof. num_order. Qed.

Lemma window_exact (v : Num.t) : WindowNum alpha beta v v.
Proof. num_order. Qed.

Lemma window_base_max (best acc : Num.t) :
  Num.lt alpha beta ->
  Num.max alpha best = Num.max alpha acc -> WindowNum alpha beta acc best.
Proof. intros. num_order. Qed.

Lemma window_base_min (best acc : Num.t) :
  Num.lt alpha beta ->
  Num.min beta best = Num.min beta acc -> WindowNum alpha beta acc best.
Proof. intros. num_order. Qed.

Lemma window_above (v r : Num.t) :
  Num.lt alpha beta -> Num.le beta v -> Num.le beta r ->
  WindowNum alpha beta v r.
Proof. intros. num_order. Qed.

Lemma window_below (v r : Num.t) :
  Num.lt alpha beta -> Num.le v alpha -> Num.le r alpha ->
  WindowNum alpha beta v r.
Proof. intros. num_order. Qed.

Lemma window_hi (a v r : Num.t) :
  WindowNum a beta v r -> Num.lt a beta -> Num.le beta r -> Num.le beta v.
Proof. intros. num_order. Qed.

Lemma window_lo (b v r : Num.t) :
  WindowNum alpha b v r -> Num.lt alpha b -> Num.le r alpha -> Num.le v alpha.
Proof. intros. num_order. Qed.

Lemma window_mid_max (a A v r : Num.t) :
  WindowNum a beta v r -> Num.le a A -> Num.lt r beta ->
  Num.max A r = Num.max A v.
Proof. intros. num_order. Qed.

Lemma window_mid_min (b B v r : Num.t) :
  WindowNum alpha b v r -> Num.le B b -> Num.lt alpha r ->
  Num.min B r = Num.min B v.
Proof. intros. num_order. Qed.
End NumWindow.

(** The steps of the two loops: what a cutoff and what going on mean for
    the running best and the value accumulated so far. *)
Section NumSteps.
Variables alpha beta : Num.t.

Lemma Num_le_trans (a b c : Num.t) : Num.le a b -> Num.le b c -> Num.le a c.
Proof. intros. num_order. Qed.

Lemma Num_le_max_l (a b : Num.t) : Num.le a (Num.max a b).
Proof. num_order. Qed.

Lemma Num_le_max_r (a b : Num.t) : Num.le b (Num.max a b).
Proof. num_order. Qed.

Lemma Num_le_min_l (a b : Num.t) : Num.le (Num.min a b) a.
Proof. num_order. Qed.

Lemma Num_le_min_r (a b : Num.t) : Num.le (Num.min a b) b.
Proof. num_order. Qed.

Lemma cut_max_best (a x : Num.t) :
  Num.lt a beta -> Num.le beta (Num.max a x) -> Num.le beta x.
Proof. intros. num_order. Qed.

Lemma cut_max_acc (a best acc v r : Num.t) :
  Num.lt alpha beta -> Num.lt a beta ->
  Num.max alpha best = Num.max alpha acc ->
  WindowNum a beta v r ->
  Num.le beta (Num.max best r) -> Num.le beta (Num.max acc v).
Proof.
  intros Hab Ha Heq Hw Hcut.
  destruct (Num_le_or_lt beta best) as [Hb|Hb].
  - apply Num_le_trans with acc; [|apply Num_le_max_l].
    clear Hw Hcut. num_order.
  - apply Num_le_trans with v; [|apply Num_le_max_r].
    apply window_hi with a r; auto. clear Hw Heq. num_order.
Qed.

Lemma go_max_alpha (a best r : Num.t) :
  Num.le a (Num.max alpha best) ->
  Num.le (Num.max a (Num.max best r)) (Num.max alpha (Num.max best r)).
Proof. intros. num_order. Qed.

Lemma go_max_lt (a best r : Num.t) :
  Num.lt (Num.max a (Num.max best r)) beta -> Num.lt r beta.
Proof. intros. num_order. Qed.

Lemma cut_min_best (b x : Num.t) :
  Num.lt alpha b -> Num.le (Num.min b x) alpha -> Num.le x alpha.
Proof. intros. num_order. Qed.

Lemma cut_min_acc (b best acc v r : Num.t) :
  Num.lt alpha beta -> Num.lt alpha b ->
  Num.min beta best = Num.min beta acc ->
  WindowNum alpha b v r ->
  Num.le (Num.min best r) alpha -> Num.le (Num.min acc v) alpha.
Proof.
  intros Hab Hb Heq Hw Hcut.
  destruct (Num_le_or_lt best alpha) as [Hc|Hc].
  - apply Num_le_trans with acc; [apply Num_le_min_l|].
    clear Hw Hcut. num_order.
  - apply Num_le_trans with v; [apply Num_le_min_r|].
    apply window_lo with b r; auto. clear Hw Heq. num_order.
Qed.

Lemma go_min_beta (b best r : Num.t) :
  Num.le (Num.min beta best) b ->
  Num.le (Num.min beta (Num.min best r)) (Num.min b (Num.min best r)).
Proof. intros. num_order. Qed.

Lemma go_min_lt (b best r : Num.t) :
  Num.lt alpha (Num.min b (Num.min best r)) -> Num.lt alpha r.
Proof. intros. num_order. Qed.
End NumSteps.

(** ** The evaluators *)

Lemma fold_left_map_S [B : Type] (g : B -> nat -> B) (l : list nat) (acc : B) :
  fold_left g (List.map S l) acc = fold_left (fun a j => g a (S j)) l acc.
Proof.
  revert acc; induction l as [|x l IH]; intros acc; cbn; auto.
Qed.

(** An index loop over a whole array is a loop over its elements. *)
Lemma fold_left_seq_nth [A B : Type] (f : B -> A -> B) (d : A)
      (l : list A) (acc : B) :
  fold_left (fun a j => f a (nth j l d)) (seq 0 (List.length l)) acc
  = fold_left f l acc.
Proof.
  revert acc; induction l as [|x l IH]; intros acc; [reflexivity|].
  cbn [List.length seq fold_left nth].
  rewrite <- seq_shift, fold_left_map_S.
  apply IH.
Qed.

Lemma fold_left_score (h : Z -> option Piece -> Z) (row : list (option Piece))
      (acc : Z) :
  (forall t sq, h t sq = t + squareScore sq) ->
  fold_left h row acc = acc + fold_right Z.add 0 (List.map squareScore row).
Proof.
  intros Hh; revert acc; induction row as [|sq row IH]; intros acc; cbn.
  - lia.
  - rewrite IH, Hh. lia.
Qed.

Lemma fold_right_add_app (l1 l2 : list Z) :
  fold_right Z.add 0 (l1 ++ l2)
  = fold_right Z.add 0 l1 + fold_right Z.add 0 l2.
Proof. induction l1 as [|x l1 IH]; cbn; lia. Qed.

(** The 8 by 8 double loop adds up the scores of all squares. *)
Lemma loops_material (h : Z -> option Piece -> Z) (b : Board) :
  (forall t sq, h t sq = t + squareScore sq) ->
  Board8x8 b ->
  fold_left
    (fun t i => fold_left (fun t j => h t (at_ b i j)) (seq 0 8) t)
    (seq 0 8) 0
  = materialSum b.
Proof.
  intros Hh [Hlen Hrows].
  unfold at_, materialSum.
  pose (F := fun t r => fold_left (fun t j => h t (nth j r None)) (seq 0 8) t).
  change (fold_left (fun t i => F t (nth i b [])) (seq 0 8) 0
          = fold_right Z.add 0 (List.map squareScore (List.concat b))).
  rewrite <- Hlen, (fold_left_seq_nth F [] b 0).
  clear Hlen.
  assert (G : forall acc,
             fold_left F b acc
             = acc + fold_right Z.add 0 (List.map squareScore (List.concat b))).
  { induction Hrows as [|r b Hr Hb IH]; intros acc; cbn [fold_left List.concat].
    - cbn. lia.
    - rewrite IH. unfold F at 1.
      rewrite <- Hr, fold_left_seq_nth, (fold_left_score h r acc Hh).
      rewrite List.map_app, fold_right_add_app. lia. }
  rewrite G. lia.
Qed.

Lemma getPieceValue_score (sq : option Piece) :
  Engine.getPieceValue sq = squareScore sq.
Proof. destruct sq as [[[] []]|]; reflexivity. Qed.

Lemma evaluateBoard_material {R : Rules} (g : Game) :
  Board8x8 (board g) -> Engine.evaluateBoard g = materialSum (board g).
Proof.
  intros H. unfold Engine.evaluateBoard.
  apply (loops_material (fun t sq => t + Engine.getPieceValue sq)).
  - intros t sq. now rewrite getPieceValue_score.
  - exact H.
Qed.

Lemma calculatePosition_material {R : Rules} (g : Game) :
  Board8x8 (board g) ->
  ChessAI.calculatePosition g = sideScore (turn g) (board g).
Proof.
  intros H. unfold ChessAI.calculatePosition, sideScore.
  rewrite (loops_material
             (fun t sq =>
                match sq with
                | Some piece =>
                    t + match pcolor piece with
                        | White => ChessAI.pieceValues (ptype piece)
                        | Black => - ChessAI.pieceValues (ptype piece)
                        end
                | None => t
                end)); auto.
  intros t [[[] []]|]; cbn; lia.
Qed.

(** ** Material of a legal chess position *)

Lemma score_bounds (l : list (option Piece)) :
  let total := fold_right Z.add 0 (List.map squareScore l) in
  let n := Z.of_nat (List.length l) in
  let wk := Z.of_nat (List.length (filter (isKingOf White) l)) in
  let bk := Z.of_nat (List.length (filter (isKingOf Black) l)) in
  total <= 90 * n + 810 * wk - 990 * bk
  /\ - (90 * n) - 810 * bk + 990 * wk <= total.
Proof.
  induction l as [|sq l IH]; cbn zeta in *; [cbn; lia|].
  cbn [List.map fold_right List.length filter].
  destruct sq as [[[] []]|]; cbn [isKingOf Color_eqb squareScore pieceValue
                                   ptype pcolor List.length];
    lia.
Qed.

Lemma length_concat_8 (b : Board) :
  Forall (fun row => List.length row = 8%nat) b ->
  List.length (List.concat b) = (8 * List.length b)%nat.
Proof.
  induction 1 as [|r b Hr Hb IH]; cbn [List.concat List.length]; [reflexivity|].
  rewrite List.length_app, IH, Hr. lia.
Qed.

Lemma material_bounds (b : Board) :
  ChessBoard b -> -5580 <= materialSum b <= 5580.
Proof.
  intros [[Hlen Hrows] [Hw Hb]].
  pose proof (score_bounds (List.concat b)) as H; cbn zeta in H.
  unfold kings in Hw, Hb. rewrite Hw, Hb in H.
  rewrite (length_concat_8 b Hrows), Hlen in H.
  unfold materialSum. lia.
Qed.

Lemma chessBoardb_sound (b : Board) : chessBoardb b = true -> ChessBoard b.
Proof.
  unfold chessBoardb, ChessBoard, Board8x8.
  rewrite !andb_true_iff, !Nat.eqb_eq, forallb_forall, Forall_forall.
  intros [[[H1 H2] H3] H4]. repeat split; auto.
  intros r Hr. apply Nat.eqb_eq. auto.
Qed.

Lemma Reach_after {R : Rules} (g : Game) (m : Move) :
  In m (moves g) -> LegalFrom g -> LegalFrom (move g m).
Proof.
  intros Hm H g' Hg'. apply H. eapply Reach_move; eauto.
Qed.

(** ** [engine.ts]: the pruned search against the plain one *)
Section EngineSearch.
Context {R : Rules}.
Hypothesis undo_ok : UndoRestores.

Lemma fold_max_ge (f : Move -> Z) (ms : list Move) (acc : Z) :
  acc <= fold_left (fun b m => Z.max b (f m)) ms acc.
Proof.
  revert acc; induction ms as [|m ms IH]; intros acc; cbn; [lia|].
  specialize (IH (Z.max acc (f m))). lia.
Qed.

Lemma fold_min_le (f : Move -> Z) (ms : list Move) (acc : Z) :
  fold_left (fun b m => Z.min b (f m)) ms acc <= acc.
Proof.
  revert acc; induction ms as [|m ms IH]; intros acc; cbn; [lia|].
  specialize (IH (Z.min acc (f m))). lia.
Qed.

Section EngineLoops.
Variable child : Game -> Z -> Z -> Z * Game.
Variable pv : Move -> Z.
Variables (g : Game) (alpha beta : Z).
Hypothesis window : alpha < beta.
Hypothesis child_ok :
  forall m a b, In m (moves g) -> a < b ->
    exists r, child (move g m) a b = (r, move g m)
              /\ WindowZ a b (pv m) r.

Lemma maxLoop_window (ms : list Move) :
  incl ms (moves g) ->
  forall a best acc,
    a < beta -> a <= Z.max alpha best ->
    Z.max alpha best = Z.max alpha acc ->
    exists r,
      Engine.maxLoop child ms g a beta best = (r, g)
      /\ WindowZ alpha beta
                 (fold_left (fun b m => Z.max b (pv m)) ms acc) r.
Proof.
  induction ms as [|m ms IH]; intros Hin a best acc Ha Hab Heq.
  - exists best. split; [reflexivity|]. cbn. unfold WindowZ. lia.
  - assert (Hm : In m (moves g)) by (apply Hin; left; reflexivity).
    destruct (child_ok m a beta Hm Ha) as (r1 & Hc & Hw).
    cbn [Engine.maxLoop fold_left]. rewrite Hc, (undo_ok _ _ Hm).
    pose proof (fold_max_ge pv ms (Z.max acc (pv m))) as Hge.
    unfold WindowZ in Hw.
    destruct (Z.leb_spec beta (Z.max a (Z.max best r1))) as [Hcut|Hgo].
    + eexists; split; [reflexivity|]. unfold WindowZ. lia.
    + apply IH; [intros x Hx; apply Hin; right; exact Hx| lia ..].
Qed.

Lemma minLoop_window (ms : list Move) :
  incl ms (moves g) ->
  forall b best acc,
    alpha < b -> Z.min beta best <= b ->
    Z.min beta best = Z.min beta acc ->
    exists r,
      Engine.minLoop child ms g alpha b best = (r, g)
      /\ WindowZ alpha beta
                 (fold_left (fun b m => Z.min b (pv m)) ms acc) r.
Proof.
  induction ms as [|m ms IH]; intros Hin b best acc Hb Hab Heq.
  - exists best. split; [reflexivity|]. cbn. unfold WindowZ. lia.
  - assert (Hm : In m (moves g)) by (apply Hin; left; reflexivity).
    destruct (child_ok m alpha b Hm Hb) as (r1 & Hc & Hw).
    cbn [Engine.minLoop fold_left]. rewrite Hc, (undo_ok _ _ Hm).
    pose proof (fold_min_le pv ms (Z.min acc (pv m))) as Hle.
    unfold WindowZ in Hw.
    destruct (Z.leb_spec (Z.min b (Z.min best r1)) alpha) as [Hcut|Hgo].
    + eexists; split; [reflexivity|]. unfold WindowZ. lia.
    + apply IH; [intros x Hx; apply Hin; right; exact Hx| lia ..].
Qed.
End EngineLoops.

(** The pruned search leaves the position as it found it, and its result
    stands in the window relation to the plain value. *)
Lemma minimax_window (depth : nat) :
  forall (g : Game) (alpha beta : Z) (isMax : bool),
    alpha < beta ->
    exists r,
      Engine.minimax g depth alpha beta isMax = (r, g)
      /\ WindowZ alpha beta (Plain.engineValue g depth isMax) r.
Proof.
  induction depth as [|d IH]; intros g alpha beta isMax Hab.
  - eexists; split; [reflexivity|]. cbn. unfold WindowZ. lia.
  - cbn [Engine.minimax]. unfold Plain.engineValue. cbn [Plain.value].
    destruct isMax; cbn [negb].
    + apply maxLoop_window; try lia; try apply incl_refl.
      intros m a b _ Hlt. apply IH, Hlt.
    + apply minLoop_window; try lia; try apply incl_refl.
      intros m a b _ Hlt. apply IH, Hlt.
Qed.

Lemma fold_within (f : Move -> Z) (ms : list Move) :
  (forall m, In m ms -> -9999 <= f m <= 9999) ->
  forall acc,
    -9999 <= acc <= 9999 ->
    -9999 <= fold_left (fun b m => Z.max b (f m)) ms acc <= 9999
    /\ -9999 <= fold_left (fun b m => Z.min b (f m)) ms acc <= 9999.
Proof.
  induction ms as [|m ms IH]; intros Hf acc Hacc; cbn [fold_left]; [lia|].
  pose proof (Hf m (or_introl eq_refl)).
  split; apply IH; try lia; intros x Hx; apply Hf; right; exact Hx.
Qed.

(** Below a legal chess position the plain value stays within the
    sentinels. *)
Lemma engineValue_bounds (depth : nat) :
  forall (g : Game) (isMax : bool),
    LegalFrom g -> -9999 <= Plain.engineValue g depth isMax <= 9999.
Proof.
  induction depth as [|d IH]; intros g isMax Hg.
  - change (Plain.engineValue g 0 isMax) with (- Engine.evaluateBoard g).
    rewrite evaluateBoard_material by (apply Hg; constructor).
    pose proof (material_bounds _ (Hg g (Reach_here g))). lia.
  - assert (Hk : forall f m, In m (moves g) ->
                 -9999 <= Plain.engineValue (move g m) d f <= 9999)
      by (intros f m Hm; apply IH; now apply Reach_after).
    unfold Plain.engineValue. cbn [Plain.value].
    destruct isMax;
      [apply (fold_within _ _ (Hk false)) | apply (fold_within _ _ (Hk true))];
      lia.
Qed.

(** With the full window the pruned search returns the plain value. *)
Lemma minimax_plain (g : Game) (depth : nat) (isMax : bool) :
  LegalFrom g ->
  Engine.minimax g depth (-10000) 10000 isMax
  = (Plain.engineValue g depth isMax, g).
Proof.
  intros Hg.
  destruct (minimax_window depth g (-10000) 10000 isMax) as (r & E & W);
    [lia|].
  pose proof (engineValue_bounds depth g isMax Hg).
  rewrite E. f_equal. unfold WindowZ in W. lia.
Qed.

End EngineSearch.

Lemma Num_leb_false (a b : Num.t) : Num.leb a b = false -> Num.lt b a.
Proof. unfold Num.lt, Num.ltb. now intros ->. Qed.

(** ** [chess-ai.ts]: the pruned search against the plain one *)
Section ChessAISearch.
Context {R : Rules}.
Hypothesis undo_ok : UndoRestores.

Lemma fold_Num_max_ge (f : Move -> Num.t) (ms : list Move) (acc : Num.t) :
  Num.le acc (fold_left (fun b m => Num.max b (f m)) ms acc).
Proof.
  revert acc; induction ms as [|m ms IH]; intros acc; cbn.
  - apply Num_leb_refl.
  - eapply Num_le_trans; [apply Num_le_max_l | apply IH].
Qed.

Lemma fold_Num_min_le (f : Move -> Num.t) (ms : list Move) (acc : Num.t) :
  Num.le (fold_left (fun b m => Num.min b (f m)) ms acc) acc.
Proof.
  revert acc; induction ms as [|m ms IH]; intros acc; cbn.
  - apply Num_leb_refl.
  - eapply Num_le_trans; [apply IH | apply Num_le_min_l].
Qed.

Section ChessAILoops.
Variable child : Game -> Num.t -> Num.t -> Num.t * Game.
Variable pv : Move -> Num.t.
Variables (g : Game) (alpha beta : Num.t).
Hypothesis window : Num.lt alpha beta.
Hypothesis child_ok :
  forall m a b, In m (moves g) -> Num.lt a b ->
    exists r, child (move g m) a b = (r, move g m)
              /\ WindowNum a b (pv m) r.

Lemma maxLoop_windowN (ms : list Move) :
  incl ms (moves g) ->
  forall a best acc,
    Num.lt a beta -> Num.le a (Num.max alpha best) ->
    Num.max alpha best = Num.max alpha acc ->
    exists r,
      ChessAI.maxLoop child ms g a beta best = (r, g)
      /\ WindowNum alpha beta
                   (fold_left (fun b m => Num.max b (pv m)) ms acc) r.
Proof.
  induction ms as [|m ms IH]; intros Hin a best acc Ha Hab Heq.
  - exists best. split; [reflexivity|]. cbn. now apply window_base_max.
  - assert (Hm : In m (moves g)) by (apply Hin; left; reflexivity).
    destruct (child_ok m a beta Hm Ha) as (r1 & Hc & Hw).
    cbn [ChessAI.maxLoop fold_left]. rewrite Hc, (undo_ok _ _ Hm).
    destruct (Num.leb beta (Num.max a (Num.max best r1))) eqn:Hcut.
    + eexists; split; [reflexivity|].
      apply cut_max_best in Hcut; [|exact Ha].
      pose proof (cut_max_acc alpha beta a best acc (pv m) r1
                              window Ha Heq Hw Hcut) as Hacc.
      apply window_above; auto.
      eapply Num_le_trans; [exact Hacc | apply fold_Num_max_ge].
    + apply Num_leb_false in Hcut.
      apply IH; auto.
      * intros x Hx; apply Hin; right; exact Hx.
      * now apply go_max_alpha.
      * rewrite !Num_max_assoc, <- Heq.
        apply window_mid_max with beta a; auto.
        eapply go_max_lt; eauto.
Qed.

Lemma minLoop_windowN (ms : list Move) :
  incl ms (moves g) ->
  forall b best acc,
    Num.lt alpha b -> Num.le (Num.min beta best) b ->
    Num.min beta best = Num.min beta acc ->
    exists r,
      ChessAI.minLoop child ms g alpha b best = (r, g)
      /\ WindowNum alpha beta
                   (fold_left (fun b m => Num.min b (pv m)) ms acc) r.
Proof.
  induction ms as [|m ms IH]; intros Hin b best acc Hb Hab Heq.
  - exists best. split; [reflexivity|]. cbn. now apply window_base_min.
  - assert (Hm : In m (moves g)) by (apply Hin; left; reflexivity).
    destruct (child_ok m alpha b Hm Hb) as (r1 & Hc & Hw).
    cbn [ChessAI.minLoop fold_left]. rewrite Hc, (undo_ok _ _ Hm).
    destruct (Num.leb (Num.min b (Num.min best r1)) alpha) eqn:Hcut.
    + eexists; split; [reflexivity|].
      apply cut_min_best in Hcut; [|exact Hb].
      pose proof (cut_min_acc alpha beta b best acc (pv m) r1
                              window Hb Heq Hw Hcut) as Hacc.
      apply window_below; auto.
      eapply Num_le_trans; [apply fold_Num_min_le | exact Hacc].
    + apply Num_leb_false in Hcut.
      apply IH; auto.
      * intros x Hx; apply Hin; right; exact Hx.
      * now apply go_min_beta.
      * rewrite !Num_min_assoc, <- Heq.
        apply window_mid_min with alpha b; auto.
        eapply go_min_lt; eauto.
Qed.
End ChessAILoops.

Lemma evaluateBoard_window (depth : nat) :
  forall (g : Game) (alpha beta : Num.t) (isMax : bool),
    Num.lt alpha beta ->
    exists r,
      ChessAI.evaluateBoard g depth alpha beta isMax = (r, g)
      /\ WindowNum alpha beta (Plain.chessAIValue g depth isMax) r.
Proof.
  induction depth as [|d IH]; intros g alpha beta isMax Hab.
  - eexists; split; [reflexivity|]. apply window_exact.
  - cbn [ChessAI.evaluateBoard]. unfold Plain.chessAIValue. cbn [Plain.value].
    destruct isMax; cbn [negb].
    + apply maxLoop_windowN; auto using incl_refl, Num_le_max_l.
    + apply minLoop_windowN; auto using incl_refl, Num_le_min_l.
Qed.

Lemma evaluateBoard_plain (g : Game) (depth : nat) (isMax : bool) :
  ChessAI.evaluateBoard g depth Num.NegInf Num.PosInf isMax
  = (Plain.chessAIValue g depth isMax, g).
Proof.
  destruct (evaluateBoard_window depth g Num.NegInf Num.PosInf isMax)
    as (r & E & W); [reflexivity|].
  rewrite E. f_equal. destruct W as (W1 & W2 & W3).
  destruct (Plain.chessAIValue g depth isMax) as [|v|].
  - specialize (W1 eq_refl).
    destruct r; unfold Num.le in W1; cbn in W1; congruence.
  - apply W2; reflexivity.
  - specialize (W3 eq_refl).
    destruct r; unfold Num.le in W3; cbn in W3; congruence.
Qed.
End ChessAISearch.

(** ** The root loop *)

Section FirstBest.
Context {R : Rules}.
Variable V : Type.
Variables (vlt vle : V -> V -> Prop) (gtb : V -> V -> bool).
Hypothesis gtb_true : forall a b, gtb a b = true -> vlt b a.
Hypothesis gtb_false : forall a b, gtb a b = false -> vle a b.
Hypothesis vlt_trans : forall a b c, vlt a b -> vlt b c -> vlt a c.
Hypothesis vle_lt_trans : forall a b c, vle a b -> vlt b c -> vlt a c.
Hypothesis vlt_le : forall a b, vlt a b -> vle a b.

Variable score : Move -> V.

(** Either nothing beat [bestValue], or the result is the first move
    with the greatest score. *)
Lemma firstBest_spec (ms : list Move) :
  forall (bestMove : option Move) (bestValue : V),
    (Plain.firstBest gtb score ms bestMove bestValue = bestMove
     /\ forall x, In x ms -> vle (score x) bestValue)
    \/ (exists m,
           Plain.firstBest gtb score ms bestMove bestValue = Some m
           /\ vlt bestValue (score m)
           /\ Plain.FirstMax vlt vle score ms m).
Proof.
  induction ms as [|m ms IH]; intros bm bv; cbn [Plain.firstBest].
  - left. split; [reflexivity|]. intros x [].
  - destruct (gtb (score m) bv) eqn:E.
    + apply gtb_true in E. right.
      destruct (IH (Some m) (score m)) as [[Hr Hall]|(m' & Hr & Hlt & Hf)].
      * exists m. repeat split; auto.
        exists [], ms. repeat split; auto; intros x [].
      * exists m'. repeat split; eauto.
        destruct Hf as (pre & post & -> & Hpre & Hpost).
        exists (m :: pre), post. repeat split; auto.
        intros x [<-|Hx]; auto.
    + apply gtb_false in E.
      destruct (IH bm bv) as [[Hr Hall]|(m' & Hr & Hlt & Hf)].
      * left. split; auto. intros x [<-|Hx]; auto.
      * right. exists m'. repeat split; auto.
        destruct Hf as (pre & post & -> & Hpre & Hpost).
        exists (m :: pre), post. repeat split; auto.
        intros x [<-|Hx]; eauto.
Qed.

Lemma FirstMax_member (ms : list Move) (m : Move) :
  Plain.FirstMax vlt vle score ms m -> In m ms.
Proof.
  intros (pre & post & -> & _). apply in_or_app. right. left. reflexivity.
Qed.

Lemma FirstMax_greatest (ms : list Move) (m : Move) :
  vle (score m) (score m) ->
  Plain.FirstMax vlt vle score ms m ->
  forall x, In x ms -> vle (score x) (score m).
Proof.
  intros Hrefl (pre & post & -> & Hpre & Hpost) x Hx.
  apply in_app_or in Hx. destruct Hx as [Hx|[<-|Hx]]; auto.
Qed.
End FirstBest.

Lemma nonempty_length (A : Type) (l : list A) :
  l <> [] -> (List.length l =? 0)%nat = false.
Proof. destruct l; [congruence | reflexivity]. Qed.

Section EngineRoot.
Context {R : Rules}.

Lemma Engine_rootLoop_member (depth : nat) (ms : list Move) :
  forall (g : Game) (bm : option Move) (bv : Z) (m : Move),
    fst (Engine.rootLoop depth ms g bm bv) = Some m ->
    bm = Some m \/ In m ms.
Proof.
  induction ms as [|x ms IH]; intros g bm bv m; cbn [Engine.rootLoop].
  - auto.
  - destruct (Engine.minimax (move g x) (depth - 1) (-10000) 10000 false)
      as [v g'].
    destruct (bv <? v); intros H; apply IH in H.
    + destruct H as [H|H]; [injection H as ->; right; left; reflexivity|].
      right; right; exact H.
    + destruct H as [H|H]; auto. right; right; exact H.
Qed.

Hypothesis undo_ok : UndoRestores.

Lemma Engine_rootLoop_state (depth : nat) (g : Game) (ms : list Move) :
  incl ms (moves g) ->
  forall bm bv, snd (Engine.rootLoop depth ms g bm bv) = g.
Proof.
  induction ms as [|x ms IH]; intros Hin bm bv; cbn [Engine.rootLoop].
  - reflexivity.
  - assert (Hx : In x (moves g)) by (apply Hin; left; reflexivity).
    destruct (minimax_window undo_ok (depth - 1) (move g x)
                             (-10000) 10000 false) as (r & E & _); [lia|].
    rewrite E, (undo_ok _ _ Hx).
    assert (Hin' : incl ms (moves g))
      by (intros y Hy; apply Hin; right; exact Hy).
    destruct (bv <? r); apply IH; exact Hin'.
Qed.

Lemma Engine_rootLoop_plain (depth : nat) (g : Game) (ms : list Move) :
  LegalFrom g -> incl ms (moves g) ->
  forall bm bv,
    Engine.rootLoop depth ms g bm bv
    = (Plain.firstBest (fun a b => b <? a)
                       (fun m => Plain.engineValue (move g m) (depth - 1) false)
                       ms bm bv, g).
Proof.
  intros Hg.
  induction ms as [|x ms IH]; intros Hin bm bv;
    cbn [Engine.rootLoop Plain.firstBest].
  - reflexivity.
  - assert (Hx : In x (moves g)) by (apply Hin; left; reflexivity).
    rewrite (minimax_plain undo_ok (move g x) (depth - 1) false
                           (Reach_after g x Hx Hg)).
    rewrite (undo_ok _ _ Hx).
    assert (Hin' : incl ms (moves g))
      by (intros y Hy; apply Hin; right; exact Hy).
    destruct (bv <? _); apply IH; exact Hin'.
Qed.

Lemma Engine_getBestMove_state (g : Game) (difficulty : string) (rand : Q) :
  snd (Engine.getBestMove g difficulty rand) = g.
Proof.
  unfold Engine.getBestMove.
  destruct (List.length (moves g) =? 0)%nat; [reflexivity|].
  destruct (difficulty =? "Beginner")%string; [reflexivity|].
  match goal with
  | |- context [Engine.rootLoop ?d ?ms ?g0 ?bm ?bv] =>
      pose proof (Engine_rootLoop_state d g0 ms (incl_refl _) bm bv) as H;
      destruct (Engine.rootLoop d ms g0 bm bv) as [best g']
  end.
  exact H.
Qed.

Lemma Engine_getBestMove_plain (g : Game) (difficulty : string) (rand : Q) :
  LegalFrom g -> difficulty <> "Beginner"%string ->
  Engine.getBestMove g difficulty rand = (Plain.engineChoice g difficulty, g).
Proof.
  intros Hg HD. unfold Engine.getBestMove, Plain.engineChoice.
  apply String.eqb_neq in HD. rewrite HD.
  destruct (moves g) as [|m0 ms] eqn:Hms; [reflexivity|].
  cbn [List.length Nat.eqb].
  rewrite <- Hms at 1.
  fold (Plain.depthOf difficulty).
  rewrite <- Hms, (Engine_rootLoop_plain (Plain.depthOf difficulty) g (moves g)
                               Hg (incl_refl _)).
  reflexivity.
Qed.
End EngineRoot.

Section ChessAIRoot.
Context {R : Rules}.

Lemma ChessAI_rootLoop_member (depth : nat) (ms : list Move) :
  forall (g : Game) (bm : option Move) (bv : Num.t) (m : Move),
    fst (ChessAI.rootLoop depth ms g bm bv) = Some m ->
    bm = Some m \/ In m ms.
Proof.
  induction ms as [|x ms IH]; intros g bm bv m; cbn [ChessAI.rootLoop].
  - auto.
  - destruct (ChessAI.evaluateBoard (move g x) (depth - 1)
                                    Num.NegInf Num.PosInf false) as [v g'].
    destruct (Num.ltb bv (Num.opp v)); intros H; apply IH in H.
    + destruct H as [H|H]; [injection H as ->; right; left; reflexivity|].
      right; right; exact H.
    + destruct H as [H|H]; auto. right; right; exact H.
Qed.

Hypothesis undo_ok : UndoRestores.

Lemma ChessAI_rootLoop_plain (depth : nat) (g : Game) (ms : list Move) :
  incl ms (moves g) ->
  forall bm bv,
    ChessAI.rootLoop depth ms g bm bv
    = (Plain.firstBest
         (fun a b => Num.ltb b a)
         (fun m => Num.opp (Plain.chessAIValue (move g m) (depth - 1) false))
         ms bm bv, g).
Proof.
  induction ms as [|x ms IH]; intros Hin bm bv;
    cbn [ChessAI.rootLoop Plain.firstBest].
  - reflexivity.
  - assert (Hx : In x (moves g)) by (apply Hin; left; reflexivity).
    rewrite (evaluateBoard_plain undo_ok (move g x) (depth - 1) false).
    rewrite (undo_ok _ _ Hx).
    assert (Hin' : incl ms (moves g))
      by (intros y Hy; apply Hin; right; exact Hy).
    destruct (Num.ltb bv _); apply IH; exact Hin'.
Qed.

Lemma ChessAI_getBestMove_plain (g : Game) (difficulty : string) (rand : Q) :
  difficulty <> "Beginner"%string ->
  ChessAI.getBestMove g difficulty rand
  = (Plain.chessAIChoice g difficulty, g).
Proof.
  intros HD. unfold ChessAI.getBestMove, Plain.chessAIChoice.
  apply String.eqb_neq in HD. rewrite HD.
  destruct (moves g) as [|m0 ms] eqn:Hms; [reflexivity|].
  cbn [List.length Nat.eqb].
  rewrite <- Hms at 1.
  fold (Plain.depthOf difficulty).
  rewrite <- Hms, (ChessAI_rootLoop_plain (Plain.depthOf difficulty) g (moves g)
                               (incl_refl _)).
  reflexivity.
Qed.

Lemma ChessAI_getBestMove_state (g : Game) (difficulty : string) (rand : Q) :
  snd (ChessAI.getBestMove g difficulty rand) = g.
Proof.
  unfold ChessAI.getBestMove.
  destruct (List.length (moves g) =? 0)%nat; [reflexivity|].
  destruct (difficulty =? "Beginner")%string; [reflexivity|].
  rewrite (ChessAI_rootLoop_plain _ g (moves g) (incl_refl _)).
  reflexivity.
Qed.
End ChessAIRoot.

Section RootScores.
Context {R : Rules}.
Hypothesis undo_ok : UndoRestores.

(** The root loop of [engine.ts] in terms of the scores it computes. *)
Lemma Engine_rootLoop_scores (depth : nat) (g : Game) (ms : list Move) :
  incl ms (moves g) ->
  forall bm bv,
    Engine.rootLoop depth ms g bm bv
    = (Plain.firstBest (fun a b => b <? a) (Engine.boardValue g depth)
                       ms bm bv, g).
Proof.
  induction ms as [|x ms IH]; intros Hin bm bv;
    cbn [Engine.rootLoop Plain.firstBest].
  - reflexivity.
  - assert (Hx : In x (moves g)) by (apply Hin; left; reflexivity).
    destruct (minimax_window undo_ok (depth - 1) (move g x)
                             (-10000) 10000 false) as (r & E & _); [lia|].
    assert (Hs : Engine.boardValue g depth x = r)
      by (unfold Engine.boardValue; now rewrite E).
    rewrite E, (undo_ok _ _ Hx), Hs.
    assert (Hin' : incl ms (moves g))
      by (intros y Hy; apply Hin; right; exact Hy).
    destruct (bv <? r); apply IH; exact Hin'.
Qed.

Lemma ChessAI_rootLoop_scores (depth : nat) (g : Game) (ms : list Move) :
  incl ms (moves g) ->
  forall bm bv,
    ChessAI.rootLoop depth ms g bm bv
    = (Plain.firstBest (fun a b => Num.ltb b a) (ChessAI.boardValue g depth)
                       ms bm bv, g).
Proof.
  induction ms as [|x ms IH]; intros Hin bm bv;
    cbn [ChessAI.rootLoop Plain.firstBest].
  - reflexivity.
  - assert (Hx : In x (moves g)) by (apply Hin; left; reflexivity).
    pose proof (evaluateBoard_plain undo_ok (move g x) (depth - 1) false)
      as E.
    assert (Hs : ChessAI.boardValue g depth x
                 = Num.opp (Plain.chessAIValue (move g x) (depth - 1) false))
      by (unfold ChessAI.boardValue; now rewrite E).
    rewrite E, (undo_ok _ _ Hx), Hs.
    assert (Hin' : incl ms (moves g))
      by (intros y Hy; apply Hin; right; exact Hy).
    destruct (Num.ltb bv _); apply IH; exact Hin'.
Qed.
End RootScores.

(** ** Every move of the search is taken back

    Whatever the window, also one that is already closed, the searches
    below the root hand the position back as they found it. *)
Section SearchState.
Context {R : Rules}.
Hypothesis undo_ok : UndoRestores.

Lemma Engine_loops_state (child : Game -> Z -> Z -> Z * Game) (g : Game) :
  (forall m a b, In m (moves g) -> snd (child (move g m) a b) = move g m) ->
  forall ms, incl ms (moves g) ->
  forall alpha beta best,
    snd (Engine.maxLoop child ms g alpha beta best) = g
    /\ snd (Engine.minLoop child ms g alpha beta best) = g.
Proof.
  intros Hchild. induction ms as [|m ms IH]; intros Hin alpha beta best.
  - split; reflexivity.
  - assert (Hm : In m (moves g)) by (apply Hin; left; reflexivity).
    assert (Hin' : incl ms (moves g))
      by (intros x Hx; apply Hin; right; exact Hx).
    cbn [Engine.maxLoop Engine.minLoop].
    pose proof (Hchild m alpha beta Hm) as Hc.
    destruct (child (move g m) alpha beta) as [v g1]. cbn [snd] in Hc.
    subst g1. rewrite (undo_ok _ _ Hm). split.
    + destruct (beta <=? Z.max alpha (Z.max best v)); [reflexivity|].
      apply IH; exact Hin'.
    + destruct (Z.min beta (Z.min best v) <=? alpha); [reflexivity|].
      apply IH; exact Hin'.
Qed.

Lemma Engine_minimax_state (depth : nat) :
  forall (g : Game) (alpha beta : Z) (isMax : bool),
    snd (Engine.minimax g depth alpha beta isMax) = g.
Proof.
  induction depth as [|d IH]; intros g alpha beta isMax; [reflexivity|].
  cbn [Engine.minimax].
  destruct isMax;
    apply (Engine_loops_state _ g (fun m a b _ => IH (move g m) a b _)
                              (moves g) (incl_refl _)).
Qed.

Lemma ChessAI_loops_state (child : Game -> Num.t -> Num.t -> Num.t * Game)
      (g : Game) :
  (forall m a b, In m (moves g) -> snd (child (move g m) a b) = move g m) ->
  forall ms, incl ms (moves g) ->
  forall alpha beta best,
    snd (ChessAI.maxLoop child ms g alpha beta best) = g
    /\ snd (ChessAI.minLoop child ms g alpha beta best) = g.
Proof.
  intros Hchild. induction ms as [|m ms IH]; intros Hin alpha beta best.
  - split; reflexivity.
  - assert (Hm : In m (moves g)) by (apply Hin; left; reflexivity).
    assert (Hin' : incl ms (moves g))
      by (intros x Hx; apply Hin; right; exact Hx).
    cbn [ChessAI.maxLoop ChessAI.minLoop].
    pose proof (Hchild m alpha beta Hm) as Hc.
    destruct (child (move g m) alpha beta) as [v g1]. cbn [snd] in Hc.
    subst g1. rewrite (undo_ok _ _ Hm). split.
    + destruct (Num.leb beta (Num.max alpha (Num.max best v)));
        [reflexivity|].
      apply IH; exact Hin'.
    + destruct (Num.leb (Num.min beta (Num.min best v)) alpha);
        [reflexivity|].
      apply IH; exact Hin'.
Qed.

Lemma ChessAI_evaluateBoard_state (depth : nat) :
  forall (g : Game) (alpha beta : Num.t) (isMax : bool),
    snd (ChessAI.evaluateBoard g depth alpha beta isMax) = g.
Proof.
  induction depth as [|d IH]; intros g alpha beta isMax; [reflexivity|].
  cbn [ChessAI.evaluateBoard].
  destruct isMax;
    apply (ChessAI_loops_state _ g (fun m a b _ => IH (move g m) a b _)
                               (moves g) (incl_refl _)).
Qed.
End SearchState.

(** ** The random draw of the Beginner level *)

Lemma randomIndex_lt (rand : Q) (n : nat) :
  (0 <= rand)%Q -> (rand < 1)%Q -> (0 < n)%nat ->
  (Engine.randomIndex rand n < n)%nat.
Proof.
  intros H0 H1 Hn. unfold Engine.randomIndex.
  set (N := inject_Z (Z.of_nat n)).
  assert (HN : (0 < N)%Q).
  { unfold N. change 0%Q with (inject_Z 0). rewrite <- Zlt_Qlt. lia. }
  assert (Hlt : (rand * N < N)%Q).
  { setoid_replace N with (1 * N)%Q at 2 by (symmetry; apply Qmult_1_l).
    apply Qmult_lt_compat_r; assumption. }
  assert (Hfl : (Qfloor (rand * N) < Z.of_nat n)%Z).
  { rewrite Zlt_Qlt. eapply Qle_lt_trans; [apply Qfloor_le | exact Hlt]. }
  lia.
Qed.

(** ** The path games keep the contract of the collaborator *)

Lemma PathGame_undo (arity : list nat -> nat)
      (shape : list nat -> PathGame.Shape) (first : Color) :
  @UndoRestores (PathGame.rules arity shape first).
Proof. intros g m _. reflexivity. Qed.

Lemma PathGame_turns (arity : list nat -> nat)
      (shape : list nat -> PathGame.Shape) (first : Color) :
  @TurnsAlternate (PathGame.rules arity shape first).
Proof.
  intros g m _. cbn [turn move PathGame.rules List.length].
  rewrite Nat.even_succ, <- Nat.negb_even.
  destruct (Nat.even (List.length g)), first; reflexivity.
Qed.

Lemma PathGame_boards (s : PathGame.Shape) : ChessBoard (PathGame.shapeBoard s).
Proof. apply chessBoardb_sound. destruct s; reflexivity. Qed.

Lemma PathGame_legal (arity : list nat -> nat)
      (shape : list nat -> PathGame.Shape) (first : Color) (p : list nat) :
  @LegalFrom (PathGame.rules arity shape first) p.
Proof. intros g' _. apply PathGame_boards. Qed.

(** ** The claims *)

(** C5.  When the list of legal moves is empty, [getBestMove] returns
    "no move" at every difficulty, Beginner included, and hands the
    position back as it received it; neither the board nor the side to
    move takes part in the result. *)
Theorem no_legal_move_no_move {R : Rules} (g : Game) (difficulty : string)
        (rand : Q) :
  moves g = [] ->
  Engine.getBestMove g difficulty rand = (None, g)
  /\ ChessAI.getBestMove g difficulty rand = (None, g).
Proof.
  intros H. unfold Engine.getBestMove, ChessAI.getBestMove.
  rewrite H. split; reflexivity.
Qed.

Lemma no_legal_move_no_move_witness :
  @Engine.getBestMove PathGame.deadGame [] "Beginner" (1 # 2) = (None, [])
  /\ @ChessAI.getBestMove PathGame.deadGame [] "Beginner" (1 # 2) = (None, []).
Proof.
  apply (@no_legal_move_no_move PathGame.deadGame [] "Beginner" (1 # 2)).
  reflexivity.
Defined.

(** C10.  An interior node (depth above 0) whose side to move has no
    legal move returns the sentinel of its kind, -9999 or -Infinity when it
    maximizes and 9999 or Infinity when it minimizes, whatever the board is
    and whether or not the side to move is in check; the evaluator plays no
    part, and the position is handed back unchanged.  Two such positions,
    a checkmate and a stalemate say, therefore get the same score. *)
Theorem no_moves_sentinel {R : Rules} (g : Game) (depth : nat)
        (isMaximizing : bool) :
  moves g = [] ->
  (forall alpha beta : Z,
      Engine.minimax g (S depth) alpha beta isMaximizing
      = ((if isMaximizing then -9999 else 9999), g))
  /\ (forall alpha beta : Num.t,
         ChessAI.evaluateBoard g (S depth) alpha beta isMaximizing
         = ((if isMaximizing then Num.NegInf else Num.PosInf), g))
  /\ (forall g' : Game,
         moves g' = [] ->
         (forall alpha beta alpha' beta' : Z,
             fst (Engine.minimax g' (S depth) alpha' beta' isMaximizing)
             = fst (Engine.minimax g (S depth) alpha beta isMaximizing))
         /\ (forall alpha beta alpha' beta' : Num.t,
                fst (ChessAI.evaluateBoard g' (S depth) alpha' beta'
                                           isMaximizing)
                = fst (ChessAI.evaluateBoard g (S depth) alpha beta
                                             isMaximizing))).
Proof.
  intros H.
  assert (HE : forall g0, moves g0 = [] -> forall alpha beta : Z,
               Engine.minimax g0 (S depth) alpha beta isMaximizing
               = ((if isMaximizing then -9999 else 9999), g0)).
  { intros g0 H0 alpha beta. cbn [Engine.minimax]. rewrite H0.
    destruct isMaximizing; reflexivity. }
  assert (HC : forall g0, moves g0 = [] -> forall alpha beta : Num.t,
               ChessAI.evaluateBoard g0 (S depth) alpha beta isMaximizing
               = ((if isMaximizing then Num.NegInf else Num.PosInf), g0)).
  { intros g0 H0 alpha beta. cbn [ChessAI.evaluateBoard]. rewrite H0.
    destruct isMaximizing; reflexivity. }
  split; [exact (HE g H) | split; [exact (HC g H)|]].
  intros g' H'. split; intros alpha beta alpha' beta'.
  - now rewrite (HE g H), (HE g' H').
  - now rewrite (HC g H), (HC g' H').
Qed.

Lemma no_moves_sentinel_witness :
  (forall alpha beta : Z,
      @Engine.minimax PathGame.deadGame [] 2 alpha beta true = (-9999, []))
  /\ (forall alpha beta : Num.t,
         @ChessAI.evaluateBoard PathGame.deadGame [] 2 alpha beta true
         = (Num.NegInf, [])).
Proof.
  destruct (@no_moves_sentinel PathGame.deadGame [] 1 true eq_refl)
    as (HE & HC & _).
  exact (conj HE HC).
Defined.

(** C4.  Whatever the difficulty, when [getBestMove] returns, the position
    is in the state it had before the call: every [game.move] of the root
    loop and of every ply below it, pruned iterations included, has been
    taken back by a [game.undo]; the same holds for every call of the
    recursive search, at every depth and with every window. *)
Theorem search_restores_position {R : Rules} :
  UndoRestores ->
  forall g : Game,
    (forall (difficulty : string) (rand : Q),
        snd (Engine.getBestMove g difficulty rand) = g
        /\ snd (ChessAI.getBestMove g difficulty rand) = g)
    /\ (forall depth alpha beta isMaximizing,
           snd (Engine.minimax g depth alpha beta isMaximizing) = g)
    /\ (forall depth alpha beta isMaximizing,
           snd (ChessAI.evaluateBoard g depth alpha beta isMaximizing) = g).
Proof.
  intros undo_ok g. split; [|split].
  - intros difficulty rand. split.
    + now apply Engine_getBestMove_state.
    + now apply ChessAI_getBestMove_state.
  - intros depth alpha beta isMaximizing. now apply Engine_minimax_state.
  - intros depth alpha beta isMaximizing.
    now apply ChessAI_evaluateBoard_state.
Qed.

Lemma search_restores_position_witness :
  snd (@Engine.getBestMove PathGame.queenGame [] "Master" 0) = []
  /\ snd (@ChessAI.getBestMove PathGame.queenGame [] "Master" 0) = [].
Proof.
  destruct (@search_restores_position PathGame.queenGame
              (PathGame_undo _ _ _) []) as (H & _).
  exact (H "Master"%string 0%Q).
Defined.

Lemma head_of_nonempty (A : Type) (l : list A) :
  l <> [] -> exists x, nth_error l 0 = Some x /\ In x l.
Proof.
  destruct l as [|x l]; [congruence|]. intros _. exists x.
  split; [reflexivity | left; reflexivity].
Qed.

Lemma firstBest_nothing_better {R : Rules} (V : Type) (gtb : V -> V -> bool)
      (score : Move -> V) (ms : list Move) (bv : V) :
  (forall m, In m ms -> gtb (score m) bv = false) ->
  Plain.firstBest gtb score ms None bv = None.
Proof.
  induction ms as [|x ms IH]; intros H; cbn [Plain.firstBest]; [reflexivity|].
  rewrite (H x) by (left; reflexivity).
  apply IH. intros m Hm. apply H. right; exact Hm.
Qed.

(** C9.  When the list of legal moves is not empty, [getBestMove] returns
    a move at every difficulty, and that move is one of the legal moves;
    in particular, when no root move scores strictly above the initial best
    value (-9999, -Infinity), the first legal move is returned. *)
Theorem returned_move_is_legal {R : Rules} (g : Game) (difficulty : string)
        (rand : Q) :
  moves g <> [] -> (0 <= rand)%Q -> (rand < 1)%Q ->
  (exists m, fst (Engine.getBestMove g difficulty rand) = Some m
             /\ In m (moves g))
  /\ (exists m, fst (ChessAI.getBestMove g difficulty rand) = Some m
                /\ In m (moves g))
  /\ (UndoRestores -> difficulty <> "Beginner"%string ->
      let depth := Plain.depthOf difficulty in
      ((forall m, In m (moves g) -> Engine.boardValue g depth m <= -9999) ->
       fst (Engine.getBestMove g difficulty rand) = nth_error (moves g) 0)
      /\ ((forall m, In m (moves g) ->
                     Num.le (ChessAI.boardValue g depth m) Num.NegInf) ->
          fst (ChessAI.getBestMove g difficulty rand) = nth_error (moves g) 0)).
Proof.
  intros Hne H0 H1.
  pose proof (nonempty_length _ _ Hne) as Hlen.
  assert (Hpos : (0 < List.length (moves g))%nat)
    by (apply Nat.eqb_neq in Hlen; lia).
  destruct (head_of_nonempty _ _ Hne) as (m0 & Hm0 & Hin0).
  assert (Hrand : exists m,
             nth_error (moves g)
                       (Engine.randomIndex rand (List.length (moves g)))
             = Some m /\ In m (moves g)).
  { destruct (nth_error (moves g)
                (Engine.randomIndex rand (List.length (moves g))))
      as [m|] eqn:E.
    - exists m. split; [reflexivity|]. eapply nth_error_In; eauto.
    - apply nth_error_None in E.
      pose proof (randomIndex_lt rand _ H0 H1 Hpos). lia. }
  split; [|split].
  - unfold Engine.getBestMove. rewrite Hlen.
    destruct (difficulty =? "Beginner")%string; [exact Hrand|].
    match goal with
    | |- context [Engine.rootLoop ?d ?ms ?g0 ?bm ?bv] =>
        pose proof (Engine_rootLoop_member d ms g0 bm bv) as Hmem;
        destruct (Engine.rootLoop d ms g0 bm bv) as [[m|] g']
    end; cbn [fst].
    + exists m. split; [reflexivity|].
      destruct (Hmem m eq_refl) as [Hx|Hx]; [discriminate | exact Hx].
    + exists m0. split; assumption.
  - unfold ChessAI.getBestMove. rewrite Hlen.
    destruct (difficulty =? "Beginner")%string; [exact Hrand|].
    match goal with
    | |- context [ChessAI.rootLoop ?d ?ms ?g0 ?bm ?bv] =>
        pose proof (ChessAI_rootLoop_member d ms g0 bm bv) as Hmem;
        destruct (ChessAI.rootLoop d ms g0 bm bv) as [[m|] g']
    end; cbn [fst].
    + exists m. split; [reflexivity|].
      destruct (Hmem m eq_refl) as [Hx|Hx]; [discriminate | exact Hx].
    + exists m0. split; assumption.
  - intros undo_ok HD depth. apply String.eqb_neq in HD. split; intros Hlow.
    + unfold Engine.getBestMove. rewrite Hlen, HD.
      fold (Plain.depthOf difficulty). fold depth.
      rewrite (Engine_rootLoop_scores undo_ok depth g (moves g) (incl_refl _)).
      rewrite firstBest_nothing_better; [reflexivity|].
      intros m Hm. apply Z.ltb_ge. now apply Hlow.
    + unfold ChessAI.getBestMove. rewrite Hlen, HD.
      fold (Plain.depthOf difficulty). fold depth.
      rewrite (ChessAI_rootLoop_scores undo_ok depth g (moves g) (incl_refl _)).
      rewrite firstBest_nothing_better; [reflexivity|].
      intros m Hm. specialize (Hlow m Hm).
      unfold Num.ltb. now rewrite Hlow.
Qed.

Lemma returned_move_is_legal_witness :
  (exists m, fst (@Engine.getBestMove PathGame.queenGame [] "Master" (1 # 2))
             = Some m /\ In m [0; 1]%nat)
  /\ (exists m, fst (@ChessAI.getBestMove PathGame.queenGame [] "Beginner"
                                          (1 # 2))
                = Some m /\ In m [0; 1]%nat).
Proof.
  destruct (@returned_move_is_legal PathGame.queenGame [] "Master" (1 # 2))
    as (HE & _ & _); [discriminate | discriminate | reflexivity |].
  destruct (@returned_move_is_legal PathGame.queenGame [] "Beginner" (1 # 2))
    as (_ & HC & _); [discriminate | discriminate | reflexivity |].
  split; [exact HE | exact HC].
Defined.

(** C8 as the specification states it fails: a difficulty outside the four
    names is searched like Master and a move comes back. *)
Lemma unknown_difficulty_not_rejected :
  ~ In "Expert"%string ["Beginner"; "Easy"; "Hard"; "Master"]%string
  /\ @Engine.getBestMove PathGame.queenGame [] "Expert" 0 = (Some 0%nat, [])
  /\ @Engine.getBestMove PathGame.queenGame [] "Expert" 0
     = @Engine.getBestMove PathGame.queenGame [] "Master" 0
  /\ @ChessAI.getBestMove PathGame.queenGame [] "Expert" 0 = (Some 0%nat, [])
  /\ @ChessAI.getBestMove PathGame.queenGame [] "Expert" 0
     = @ChessAI.getBestMove PathGame.queenGame [] "Master" 0.
Proof.
  split; [|repeat split; vm_compute; reflexivity].
  intros [H|[H|[H|[H|[]]]]]; discriminate H.
Qed.

(** C8, amended.  A difficulty outside Beginner, Easy, Hard and Master,
    which the type [Difficulty] keeps out at compile time only, is not
    rejected: [getBestMove] searches it at depth 3, exactly as Master. *)
Theorem unknown_difficulty_is_master {R : Rules} (g : Game)
        (difficulty : string) (rand : Q) :
  ~ In difficulty ["Beginner"; "Easy"; "Hard"; "Master"]%string ->
  Engine.getBestMove g difficulty rand = Engine.getBestMove g "Master" rand
  /\ ChessAI.getBestMove g difficulty rand
     = ChessAI.getBestMove g "Master" rand.
Proof.
  intros H.
  assert (HB : (difficulty =? "Beginner")%string = false)
    by (apply String.eqb_neq; intros ->; apply H; cbn; auto).
  assert (HE : (difficulty =? "Easy")%string = false)
    by (apply String.eqb_neq; intros ->; apply H; cbn; auto).
  assert (HH : (difficulty =? "Hard")%string = false)
    by (apply String.eqb_neq; intros ->; apply H; cbn; auto).
  unfold Engine.getBestMove, ChessAI.getBestMove.
  rewrite HB, HE, HH. split; reflexivity.
Qed.

Lemma unknown_difficulty_is_master_witness :
  @Engine.getBestMove PathGame.pawnGame [] "Expert" 0
  = @Engine.getBestMove PathGame.pawnGame [] "Master" 0
  /\ @ChessAI.getBestMove PathGame.pawnGame [] "Expert" 0
     = @ChessAI.getBestMove PathGame.pawnGame [] "Master" 0.
Proof.
  apply (@unknown_difficulty_is_master PathGame.pawnGame [] "Expert" 0).
  intros [H|[H|[H|[H|[]]]]]; discriminate H.
Defined.

(** C2 as the specification states it fails: with White a pawn up, the
    leaf of [engine.ts] returns -10 where its evaluator says 10, and the
    leaf of [chess-ai.ts], Black to move, returns -10 where the
    White-positive material sum is 10. *)
Lemma leaf_is_not_white_material :
  fst (@Engine.minimax PathGame.upGame [] 0 (-10000) 10000 false)
  <> @Engine.evaluateBoard PathGame.upGame []
  /\ @turn PathGame.upGame [0%nat] = Black
  /\ fst (@ChessAI.evaluateBoard PathGame.upGame [0%nat] 0
                                 Num.NegInf Num.PosInf false)
     <> Num.Fin (materialSum (@board PathGame.upGame [0%nat])).
Proof. repeat split; vm_compute; discriminate. Qed.

(** C2, amended.  A search node at depth 0 hands the position back
    unchanged and returns, in [engine.ts], the negation of the evaluator's
    score, which is the material sum counted positive for Black, and in
    [chess-ai.ts] exactly its evaluator's score, which is the material sum
    counted positive for the side to move. *)
Theorem leaf_value {R : Rules} (g : Game) :
  Board8x8 (board g) ->
  (forall (alpha beta : Z) (isMaximizing : bool),
      Engine.minimax g 0 alpha beta isMaximizing
      = (- Engine.evaluateBoard g, g)
      /\ - Engine.evaluateBoard g = sideScore Black (board g))
  /\ (forall (alpha beta : Num.t) (isMaximizing : bool),
         ChessAI.evaluateBoard g 0 alpha beta isMaximizing
         = (Num.Fin (ChessAI.calculatePosition g), g)
         /\ ChessAI.calculatePosition g = sideScore (turn g) (board g)).
Proof.
  intros H. split; intros alpha beta isMaximizing; (split; [reflexivity|]).
  - now rewrite evaluateBoard_material.
  - now apply calculatePosition_material.
Qed.

Lemma leaf_value_witness :
  (forall (alpha beta : Z) (isMaximizing : bool),
      @Engine.minimax PathGame.upGame [] 0 alpha beta isMaximizing
      = (- @Engine.evaluateBoard PathGame.upGame [], [])
      /\ - @Engine.evaluateBoard PathGame.upGame []
         = sideScore Black (@board PathGame.upGame []))
  /\ (forall (alpha beta : Num.t) (isMaximizing : bool),
         @ChessAI.evaluateBoard PathGame.upGame [] 0 alpha beta isMaximizing
         = (Num.Fin (@ChessAI.calculatePosition PathGame.upGame []), [])
         /\ @ChessAI.calculatePosition PathGame.upGame []
            = sideScore (@turn PathGame.upGame [])
                        (@board PathGame.upGame [])).
Proof.
  apply (@leaf_value PathGame.upGame []).
  apply PathGame_boards.
Defined.

(** C3 as the specification states it fails: in [chess-ai.ts] two
    positions with the same piece placement and different sides to move
    get different scores. *)
Lemma score_depends_on_turn :
  @board PathGame.upGame [] = @board PathGame.upGame [0%nat]
  /\ @turn PathGame.upGame [] <> @turn PathGame.upGame [0%nat]
  /\ @ChessAI.calculatePosition PathGame.upGame [] = 10
  /\ @ChessAI.calculatePosition PathGame.upGame [0%nat] = -10.
Proof. repeat split; vm_compute; discriminate. Qed.

(** C3, amended.  The evaluator of [engine.ts] returns the sum over all
    squares of the piece values (pawn 10, knight 30, bishop 30, rook 50,
    queen 90, king 900), positive for White, negative for Black and 0 for
    an empty square, and so gives the same score to two positions with the
    same piece placement; the evaluator of [chess-ai.ts] returns that sum
    when White is to move and its negation when Black is to move. *)
Theorem evaluator_material {R : Rules} (g : Game) :
  Board8x8 (board g) ->
  Engine.evaluateBoard g = materialSum (board g)
  /\ (forall g', board g' = board g ->
                 Engine.evaluateBoard g' = Engine.evaluateBoard g)
  /\ ChessAI.calculatePosition g
     = match turn g with
       | White => materialSum (board g)
       | Black => - materialSum (board g)
       end.
Proof.
  intros H. split; [|split].
  - now apply evaluateBoard_material.
  - intros g' E. unfold Engine.evaluateBoard. now rewrite E.
  - now apply calculatePosition_material.
Qed.

Lemma evaluator_material_witness :
  @Engine.evaluateBoard PathGame.upGame [0%nat]
  = materialSum (@board PathGame.upGame [0%nat])
  /\ (forall g', @board PathGame.upGame g' = @board PathGame.upGame [0%nat] ->
                 @Engine.evaluateBoard PathGame.upGame g'
                 = @Engine.evaluateBoard PathGame.upGame [0%nat])
  /\ @ChessAI.calculatePosition PathGame.upGame [0%nat]
     = match @turn PathGame.upGame [0%nat] with
       | White => materialSum (@board PathGame.upGame [0%nat])
       | Black => - materialSum (@board PathGame.upGame [0%nat])
       end.
Proof.
  apply (@evaluator_material PathGame.upGame [0%nat]).
  apply PathGame_boards.
Defined.

(** C7.  Started with the full window, the pruned search returns the value
    of the plain fixed-depth minimax over the same move order, at every
    depth and for both kinds of node, and [getBestMove] returns the move
    that the search without the [beta <= alpha] cutoff returns.  For
    [engine.ts] the window from -10000 to 10000 is full because the
    material of a legal chess position stays within the sentinels. *)
Theorem pruning_keeps_the_decision {R : Rules} :
  UndoRestores ->
  forall g : Game,
    (LegalFrom g ->
     (forall depth isMaximizing,
         Engine.minimax g depth (-10000) 10000 isMaximizing
         = (Plain.engineValue g depth isMaximizing, g))
     /\ (forall difficulty rand,
            difficulty <> "Beginner"%string ->
            fst (Engine.getBestMove g difficulty rand)
            = Plain.engineChoice g difficulty))
    /\ (forall depth isMaximizing,
           ChessAI.evaluateBoard g depth Num.NegInf Num.PosInf isMaximizing
           = (Plain.chessAIValue g depth isMaximizing, g))
    /\ (forall difficulty rand,
           difficulty <> "Beginner"%string ->
           fst (ChessAI.getBestMove g difficulty rand)
           = Plain.chessAIChoice g difficulty).
Proof.
  intros undo_ok g. split; [|split].
  - intros Hg. split.
    + intros depth isMaximizing. now apply minimax_plain.
    + intros difficulty rand HD.
      now rewrite (Engine_getBestMove_plain undo_ok g difficulty rand Hg HD).
  - intros depth isMaximizing. now apply evaluateBoard_plain.
  - intros difficulty rand HD.
    now rewrite (ChessAI_getBestMove_plain undo_ok g difficulty rand HD).
Qed.

Lemma pruning_keeps_the_decision_witness :
  @Engine.minimax PathGame.queenGame [] 3 (-10000) 10000 true
  = (@Plain.engineValue PathGame.queenGame [] 3 true, [])
  /\ fst (@Engine.getBestMove PathGame.queenGame [] "Hard" 0)
     = @Plain.engineChoice PathGame.queenGame [] "Hard"
  /\ @ChessAI.evaluateBoard PathGame.queenGame [] 3 Num.NegInf Num.PosInf true
     = (@Plain.chessAIValue PathGame.queenGame [] 3 true, [])
  /\ fst (@ChessAI.getBestMove PathGame.queenGame [] "Hard" 0)
     = @Plain.chessAIChoice PathGame.queenGame [] "Hard".
Proof.
  destruct (@pruning_keeps_the_decision PathGame.queenGame
              (PathGame_undo _ _ _) []) as (HE & HV & HC).
  destruct (HE (PathGame_legal _ _ _ [])) as (HE1 & HE2).
  assert (HD : "Hard"%string <> "Beginner"%string) by discriminate.
  exact (conj (HE1 3%nat true)
              (conj (HE2 "Hard"%string 0%Q HD)
                    (conj (HV 3%nat true) (HC "Hard"%string 0%Q HD)))).
Defined.

(** ** Ties *)

Lemma Engine_boardValue_plain {R : Rules} (g : Game) (depth : nat) (m : Move) :
  UndoRestores -> LegalFrom g -> In m (moves g) ->
  Engine.boardValue g depth m = Plain.engineValue (move g m) (depth - 1) false.
Proof.
  intros undo_ok Hg Hm. unfold Engine.boardValue.
  now rewrite (minimax_plain undo_ok (move g m) (depth - 1) false
                             (Reach_after g m Hm Hg)).
Qed.

Lemma ChessAI_boardValue_plain {R : Rules} (g : Game) (depth : nat) (m : Move) :
  UndoRestores ->
  ChessAI.boardValue g depth m
  = Num.opp (Plain.chessAIValue (move g m) (depth - 1) false).
Proof.
  intros undo_ok. unfold ChessAI.boardValue.
  now rewrite (evaluateBoard_plain undo_ok (move g m) (depth - 1) false).
Qed.

Lemma Num_ltb_false (a b : Num.t) : Num.ltb b a = false -> Num.le a b.
Proof.
  unfold Num.ltb, Num.le. now rewrite negb_false_iff.
Qed.

Lemma Num_le_NegInf (a : Num.t) : Num.le a Num.NegInf -> a = Num.NegInf.
Proof. unfold Num.le. destruct a; cbn; congruence. Qed.

Lemma Num_lt_trans (a b c : Num.t) : Num.lt a b -> Num.lt b c -> Num.lt a c.
Proof. intros. num_order. Qed.

Lemma Num_le_lt_trans (a b c : Num.t) : Num.le a b -> Num.lt b c -> Num.lt a c.
Proof. intros. num_order. Qed.

Lemma Num_lt_le (a b : Num.t) : Num.lt a b -> Num.le a b.
Proof. intros. num_order. Qed.

(** The choice of [engine.ts] is the first move with the greatest score
    among the scores of its root loop. *)
Lemma Engine_choice_first {R : Rules} (g : Game) (difficulty : string)
      (rand : Q) :
  UndoRestores -> LegalFrom g ->
  difficulty <> "Beginner"%string -> moves g <> [] ->
  exists m,
    fst (Engine.getBestMove g difficulty rand) = Some m
    /\ Plain.FirstMax Z.lt Z.le
                      (Engine.boardValue g (Plain.depthOf difficulty))
                      (moves g) m.
Proof.
  intros undo_ok Hg HD Hne.
  unfold Engine.getBestMove.
  rewrite (nonempty_length _ _ Hne).
  apply String.eqb_neq in HD. rewrite HD.
  fold (Plain.depthOf difficulty).
  set (depth := Plain.depthOf difficulty).
  rewrite (Engine_rootLoop_scores undo_ok depth g (moves g) (incl_refl _)).
  cbn [fst].
  destruct (firstBest_spec Z Z.lt Z.le (fun a b => b <? a)
              (fun a b H => proj1 (Z.ltb_lt b a) H)
              (fun a b H => proj1 (Z.ltb_ge b a) H)
              Z.lt_trans Z.le_lt_trans
              (Engine.boardValue g depth) (moves g) None (-9999))
    as [[Hr Hall]|(m & Hr & _ & Hf)].
  - rewrite Hr.
    destruct (moves g) as [|m0 ms] eqn:Hms; [congruence|].
    exists m0. split; [reflexivity|].
    exists [], ms. repeat split; [intros x []|].
    intros x Hx.
    assert (Hx' : In x (moves g)) by (rewrite Hms; right; exact Hx).
    assert (H0' : In m0 (moves g)) by (rewrite Hms; left; reflexivity).
    pose proof (Hall x (or_intror Hx)) as Hlow.
    rewrite (Engine_boardValue_plain g depth m0 undo_ok Hg H0').
    pose proof (engineValue_bounds (depth - 1) (move g m0) false
                                   (Reach_after g m0 H0' Hg)).
    lia.
  - rewrite Hr. exists m. split; [reflexivity | exact Hf].
Qed.

Lemma ChessAI_choice_first {R : Rules} (g : Game) (difficulty : string)
      (rand : Q) :
  UndoRestores ->
  difficulty <> "Beginner"%string -> moves g <> [] ->
  exists m,
    fst (ChessAI.getBestMove g difficulty rand) = Some m
    /\ Plain.FirstMax Num.lt Num.le
                      (ChessAI.boardValue g (Plain.depthOf difficulty))
                      (moves g) m.
Proof.
  intros undo_ok HD Hne.
  unfold ChessAI.getBestMove.
  rewrite (nonempty_length _ _ Hne).
  apply String.eqb_neq in HD. rewrite HD.
  fold (Plain.depthOf difficulty).
  set (depth := Plain.depthOf difficulty).
  rewrite (ChessAI_rootLoop_scores undo_ok depth g (moves g) (incl_refl _)).
  cbn [fst].
  destruct (firstBest_spec Num.t Num.lt Num.le (fun a b => Num.ltb b a)
              (fun a b H => H) (fun a b H => Num_ltb_false a b H)
              Num_lt_trans Num_le_lt_trans
              (ChessAI.boardValue g depth) (moves g) None Num.NegInf)
    as [[Hr Hall]|(m & Hr & _ & Hf)].
  - rewrite Hr.
    destruct (moves g) as [|m0 ms] eqn:Hms; [congruence|].
    exists m0. split; [reflexivity|].
    exists [], ms. repeat split; [intros x []|].
    intros x Hx.
    rewrite (Num_le_NegInf _ (Hall x (or_intror Hx))). reflexivity.
  - rewrite Hr. exists m. split; [reflexivity | exact Hf].
Qed.

(** C6.  At Easy, Hard and Master the returned move is the first move, in
    the order of [game.moves()], among those with the greatest root score:
    every move before it scores strictly less, so that of two or more moves
    with equal scores the later never replaces the earlier. *)
Theorem ties_keep_the_first_move {R : Rules} :
  UndoRestores ->
  forall (g : Game) (difficulty : string) (rand : Q),
    In difficulty ["Easy"; "Hard"; "Master"]%string ->
    moves g <> [] ->
    (LegalFrom g ->
     exists m,
       fst (Engine.getBestMove g difficulty rand) = Some m
       /\ Plain.FirstMax Z.lt Z.le
                         (Engine.boardValue g (Plain.depthOf difficulty))
                         (moves g) m)
    /\ (exists m,
           fst (ChessAI.getBestMove g difficulty rand) = Some m
           /\ Plain.FirstMax Num.lt Num.le
                             (ChessAI.boardValue g (Plain.depthOf difficulty))
                             (moves g) m).
Proof.
  intros undo_ok g difficulty rand HD Hne.
  assert (HB : difficulty <> "Beginner"%string).
  { destruct HD as [<-|[<-|[<-|[]]]]; discriminate. }
  split.
  - intros Hg. now apply Engine_choice_first.
  - now apply ChessAI_choice_first.
Qed.

Lemma ties_keep_the_first_move_witness :
  (exists m,
      fst (@Engine.getBestMove PathGame.queenGame [] "Easy" 0) = Some m
      /\ @Plain.FirstMax PathGame.queenGame Z Z.lt Z.le
           (@Engine.boardValue PathGame.queenGame [] 1) [0; 1]%nat m)
  /\ (exists m,
         fst (@ChessAI.getBestMove PathGame.queenGame [] "Easy" 0) = Some m
         /\ @Plain.FirstMax PathGame.queenGame Num.t Num.lt Num.le
              (@ChessAI.boardValue PathGame.queenGame [] 1) [0; 1]%nat m).
Proof.
  destruct (@ties_keep_the_first_move PathGame.queenGame (PathGame_undo _ _ _)
              [] "Easy"%string 0%Q) as (HE & HC).
  - left; reflexivity.
  - discriminate.
  - exact (conj (HE (PathGame_legal _ _ _ [])) HC).
Defined.

(** ** The side the engine plays for *)

Lemma Num_max_Fin (a b : Z) :
  Num.max (Num.Fin a) (Num.Fin b) = Num.Fin (Z.max a b).
Proof.
  unfold Num.max; cbn. destruct (Z.leb_spec a b); f_equal; lia.
Qed.

Lemma Num_min_Fin (a b : Z) :
  Num.min (Num.Fin a) (Num.Fin b) = Num.Fin (Z.min a b).
Proof.
  unfold Num.min; cbn. destruct (Z.leb_spec a b); f_equal; lia.
Qed.

Lemma Num_le_Fin (a b : Z) : a <= b -> Num.le (Num.Fin a) (Num.Fin b).
Proof. intros H. apply Z.leb_le. exact H. Qed.

Lemma fold_Fin {R : Rules} (op : Num.t -> Num.t -> Num.t) (zop : Z -> Z -> Z)
      (F : Move -> Num.t) (f : Move -> Z) (ms : list Move) :
  (forall a b, op (Num.Fin a) (Num.Fin b) = Num.Fin (zop a b)) ->
  (forall m, In m ms -> F m = Num.Fin (f m)) ->
  forall acc,
    fold_left (fun b m => op b (F m)) ms (Num.Fin acc)
    = Num.Fin (fold_left (fun b m => zop b (f m)) ms acc).
Proof.
  intros Hop. induction ms as [|m ms IH]; intros HF acc; cbn [fold_left].
  - reflexivity.
  - rewrite (HF m) by (left; reflexivity). rewrite Hop.
    apply IH. intros x Hx. apply HF. right; exact Hx.
Qed.

(** The plain value of [engine.ts] is the minimax value of the material
    counted for Black. *)
Lemma engineValue_side {R : Rules} (depth : nat) :
  forall (g : Game) (isMax : bool),
    LegalFrom g ->
    Plain.sideValue (Num.Fin (-9999)) (Num.Fin 9999) Black g depth isMax
    = Num.Fin (Plain.engineValue g depth isMax).
Proof.
  induction depth as [|d IH]; intros g isMax Hg.
  - unfold Plain.sideValue, Plain.engineValue. cbn [Plain.value sideScore].
    rewrite evaluateBoard_material; [reflexivity|].
    apply (Hg g (Reach_here g)).
  - unfold Plain.sideValue, Plain.engineValue. cbn [Plain.value].
    destruct isMax.
    + apply (fold_Fin Num.max Z.max); [apply Num_max_Fin|].
      intros m Hm. apply IH. now apply Reach_after.
    + apply (fold_Fin Num.min Z.min); [apply Num_min_Fin|].
      intros m Hm. apply IH. now apply Reach_after.
Qed.

Lemma sideScore_opposite (side : Color) (b : Board) :
  sideScore (opposite side) b = - sideScore side b.
Proof. destruct side; cbn; lia. Qed.

(** C1 as the specification states it fails.  With White to move and a
    pawn to win, [engine.ts] at Easy returns the move that does not win it;
    with Black to move, [chess-ai.ts] at Hard returns the move after which
    the reply wins Black's queen, although the other move loses nothing. *)
Lemma engine_not_for_side_to_move :
  (@turn PathGame.pawnGame [] = White
   /\ fst (@Engine.getBestMove PathGame.pawnGame [] "Easy" 0) = Some 1%nat
   /\ ~ @Plain.BestFor PathGame.pawnGame (Num.Fin (-9999)) (Num.Fin 9999)
          White [] 1 1%nat)
  /\ (@turn PathGame.queenGame [] = Black
      /\ fst (@ChessAI.getBestMove PathGame.queenGame [] "Hard" 0)
         = Some 1%nat
      /\ ~ @Plain.BestFor PathGame.queenGame Num.NegInf Num.PosInf
             Black [] 2 1%nat).
Proof.
  split; (split; [reflexivity | split; [vm_compute; reflexivity|]]).
  - intros [_ H]. specialize (H 0%nat (or_introl eq_refl)).
    vm_compute in H. discriminate H.
  - intros [_ H]. specialize (H 0%nat (or_introl eq_refl)).
    vm_compute in H. discriminate H.
Qed.

(** C1, amended.  For a position with at least one legal move and a
    difficulty among Easy, Hard and Master, [getBestMove] of [engine.ts]
    returns a root move with the greatest depth-limited minimax value
    (depth 1, 2, 3) of the material counted for Black, the root maximizing
    and the plies below alternating, whichever side is to move: it plays
    for the side to move at the root when that side is Black.  At Easy
    [getBestMove] of [chess-ai.ts] returns a root move with the greatest
    material for the side to move at the root. *)
Theorem plays_for_black_or_one_ply {R : Rules} :
  UndoRestores ->
  forall (g : Game) (difficulty : string) (rand : Q),
    In difficulty ["Easy"; "Hard"; "Master"]%string ->
    moves g <> [] ->
    LegalFrom g ->
    (exists m,
        fst (Engine.getBestMove g difficulty rand) = Some m
        /\ Plain.BestFor (Num.Fin (-9999)) (Num.Fin 9999) Black g
                         (Plain.depthOf difficulty) m)
    /\ (difficulty = "Easy"%string -> TurnsAlternate ->
        exists m,
          fst (ChessAI.getBestMove g difficulty rand) = Some m
          /\ Plain.BestFor Num.NegInf Num.PosInf (turn g) g
                           (Plain.depthOf difficulty) m).
Proof.
  intros undo_ok g difficulty rand HD Hne Hg.
  assert (HB : difficulty <> "Beginner"%string).
  { destruct HD as [<-|[<-|[<-|[]]]]; discriminate. }
  split.
  - destruct (Engine_choice_first g difficulty rand undo_ok Hg HB Hne)
      as (m & Hr & Hf).
    exists m. split; [exact Hr|].
    pose proof (FirstMax_member Z Z.lt Z.le _ _ _ Hf) as Hm.
    split; [exact Hm|]. intros m' Hm'.
    rewrite !engineValue_side by (now apply Reach_after).
    apply Num_le_Fin.
    rewrite <- !Engine_boardValue_plain by assumption.
    apply (FirstMax_greatest Z Z.lt Z.le Z.lt_le_incl _ _ _
                             (Z.le_refl _) Hf m' Hm').
  - intros -> alt.
    destruct (ChessAI_choice_first g "Easy" rand undo_ok HB Hne)
      as (m & Hr & Hf).
    exists m. split; [exact Hr|].
    pose proof (FirstMax_member Num.t Num.lt Num.le _ _ _ Hf) as Hm.
    split; [exact Hm|]. intros m' Hm'.
    assert (Hs : forall x, In x (moves g) ->
                 ChessAI.boardValue g (Plain.depthOf "Easy") x
                 = Plain.sideValue Num.NegInf Num.PosInf (turn g) (move g x)
                                   (Plain.depthOf "Easy" - 1) false).
    { intros x Hx. rewrite ChessAI_boardValue_plain by assumption.
      change (Plain.depthOf "Easy" - 1)%nat with 0%nat.
      unfold Plain.chessAIValue, Plain.sideValue. cbn [Plain.value Num.opp].
      rewrite calculatePosition_material
        by (apply (Reach_after g x Hx Hg), Reach_here).
      rewrite (alt g x Hx), sideScore_opposite.
      now rewrite Z.opp_involutive. }
    rewrite <- !Hs by assumption.
    apply (FirstMax_greatest Num.t Num.lt Num.le Num_lt_le _ _ _
                             (Num_leb_refl _) Hf m' Hm').
Qed.

Lemma plays_for_black_or_one_ply_witness :
  (exists m,
      fst (@Engine.getBestMove PathGame.queenGame [] "Hard" 0) = Some m
      /\ @Plain.BestFor PathGame.queenGame (Num.Fin (-9999)) (Num.Fin 9999)
           Black [] 2 m)
  /\ (exists m,
         fst (@ChessAI.getBestMove PathGame.pawnGame [] "Easy" 0) = Some m
         /\ @Plain.BestFor PathGame.pawnGame Num.NegInf Num.PosInf
              White [] 1 m).
Proof.
  destruct (@plays_for_black_or_one_ply PathGame.queenGame
              (PathGame_undo _ _ _) [] "Hard"%string 0%Q) as (HE & _).
  - right; left; reflexivity.
  - discriminate.
  - apply PathGame_legal.
  - destruct (@plays_for_black_or_one_ply PathGame.pawnGame
                (PathGame_undo _ _ _) [] "Easy"%string 0%Q) as (_ & HC).
    + left; reflexivity.
    + discriminate.
    + apply PathGame_legal.
    + exact (conj HE (HC eq_refl (PathGame_turns _ _ _))).
Defined.

(** * Further properties of the two engines *)

(** ** The window of the pruned search *)

(** X1.  For every window with [alpha < beta], at every depth and for both
    kinds of node, [minimax] of [engine.ts] returns the plain minimax
    value when that value lies strictly inside the window; when the plain
    value is at or below [alpha] the result is at or below [alpha], and
    when it is at or above [beta] the result is at or above [beta].  No
    assumption on the boards is needed. *)
Theorem minimax_respects_window {R : Rules} :
  UndoRestores ->
  forall (g : Game) (depth : nat) (alpha beta : Z) (isMaximizing : bool),
    alpha < beta ->
    let r := fst (Engine.minimax g depth alpha beta isMaximizing) in
    let v := Plain.engineValue g depth isMaximizing in
    (v <= alpha -> r <= alpha)
    /\ (alpha < v < beta -> r = v)
    /\ (beta <= v -> beta <= r).
Proof.
  intros undo_ok g depth alpha beta isMaximizing Hab.
  destruct (minimax_window undo_ok depth g alpha beta isMaximizing Hab)
    as (r & E & W).
  rewrite E. exact W.
Qed.

Lemma minimax_respects_window_witness :
  let r := fst (@Engine.minimax PathGame.queenGame [] 2 (-5) 50 true) in
  let v := @Plain.engineValue PathGame.queenGame [] 2 true in
  (v <= -5 -> r <= -5) /\ (-5 < v < 50 -> r = v) /\ (50 <= v -> 50 <= r).
Proof.
  apply (@minimax_respects_window PathGame.queenGame (PathGame_undo _ _ _)
           [] 2%nat (-5) 50 true).
  reflexivity.
Defined.

(** X2.  The same for [evaluateBoard] of [chess-ai.ts], with the two
    infinities among the bounds and the values. *)
Theorem evaluateBoard_respects_window {R : Rules} :
  UndoRestores ->
  forall (g : Game) (depth : nat) (alpha beta : Num.t) (isMaximizing : bool),
    Num.lt alpha beta ->
    let r := fst (ChessAI.evaluateBoard g depth alpha beta isMaximizing) in
    let v := Plain.chessAIValue g depth isMaximizing in
    (Num.le v alpha -> Num.le r alpha)
    /\ (Num.lt alpha v -> Num.lt v beta -> r = v)
    /\ (Num.le beta v -> Num.le beta r).
Proof.
  intros undo_ok g depth alpha beta isMaximizing Hab.
  destruct (evaluateBoard_window undo_ok depth g alpha beta isMaximizing Hab)
    as (r & E & W).
  rewrite E. exact W.
Qed.

Lemma evaluateBoard_respects_window_witness :
  let r := fst (@ChessAI.evaluateBoard PathGame.queenGame [] 2
                  (Num.Fin (-5)) Num.PosInf true) in
  let v := @Plain.chessAIValue PathGame.queenGame [] 2 true in
  (Num.le v (Num.Fin (-5)) -> Num.le r (Num.Fin (-5)))
  /\ (Num.lt (Num.Fin (-5)) v -> Num.lt v Num.PosInf -> r = v)
  /\ (Num.le Num.PosInf v -> Num.le Num.PosInf r).
Proof.
  apply (@evaluateBoard_respects_window PathGame.queenGame
           (PathGame_undo _ _ _) [] 2%nat (Num.Fin (-5)) Num.PosInf true).
  reflexivity.
Defined.

(** ** The evaluators once more *)

Lemma at_swapBoard (b : Board) (i j : nat) :
  at_ (swapBoard b) i j = option_map swapPiece (at_ b i j).
Proof.
  unfold at_, swapBoard.
  change (@nil (option Piece))
    with (List.map (option_map swapPiece) (@nil (option Piece))) at 1.
  rewrite map_nth.
  change (@None Piece) with (option_map swapPiece (@None Piece)) at 1.
  now rewrite map_nth.
Qed.

Lemma fold_left_opp (A : Type) (F F' : Z -> A -> Z) (l : list A) :
  (forall t x, F' (- t) x = - F t x) ->
  forall a, fold_left F' l (- a) = - fold_left F l a.
Proof.
  intros H. induction l as [|x l IH]; intros a; cbn [fold_left].
  - reflexivity.
  - rewrite H. apply IH.
Qed.

Lemma loops_opp (h h' : Z -> nat -> nat -> Z) (rows cols : list nat) :
  (forall t i j, h' (- t) i j = - h t i j) ->
  fold_left (fun t i => fold_left (fun t j => h' t i j) cols t) rows 0
  = - fold_left (fun t i => fold_left (fun t j => h t i j) cols t) rows 0.
Proof.
  intros H.
  refine (fold_left_opp nat
            (fun t i => fold_left (fun t j => h t i j) cols t)
            (fun t i => fold_left (fun t j => h' t i j) cols t)
            rows _ 0).
  intros t i.
  apply (fold_left_opp nat (fun t j => h t i j) (fun t j => h' t i j)).
  intros t' j. apply H.
Qed.

(** X3.  Exchanging the colours of all pieces negates the score of
    [evaluateBoard] of [engine.ts]; exchanging the colours and the side to
    move leaves the score of [calculatePosition] of [chess-ai.ts] as it
    is.  This holds for every board, legal or not. *)
Theorem colour_swap_symmetry {R : Rules} (g g' : Game) :
  board g' = swapBoard (board g) ->
  Engine.evaluateBoard g' = - Engine.evaluateBoard g
  /\ (turn g' = opposite (turn g) ->
      ChessAI.calculatePosition g' = ChessAI.calculatePosition g).
Proof.
  intros Hb. split.
  - unfold Engine.evaluateBoard. rewrite Hb.
    apply (loops_opp
             (fun t i j => t + Engine.getPieceValue (at_ (board g) i j))
             (fun t i j =>
                t + Engine.getPieceValue (at_ (swapBoard (board g)) i j))).
    intros t i j. rewrite at_swapBoard.
    destruct (at_ (board g) i j) as [[[] []]|]; cbn; lia.
  - intros Ht. unfold ChessAI.calculatePosition. rewrite Hb, Ht.
    rewrite (loops_opp
               (fun t i j =>
                  match at_ (board g) i j with
                  | Some piece =>
                      t + match pcolor piece with
                          | White => ChessAI.pieceValues (ptype piece)
                          | Black => - ChessAI.pieceValues (ptype piece)
                          end
                  | None => t
                  end)).
    + destruct (turn g); cbn [opposite]; lia.
    + intros t i j. rewrite at_swapBoard.
      destruct (at_ (board g) i j) as [[[] []]|]; cbn; lia.
Qed.

Lemma colour_swap_symmetry_witness :
  @Engine.evaluateBoard MirrorGame.rules false
  = - @Engine.evaluateBoard MirrorGame.rules true
  /\ @ChessAI.calculatePosition MirrorGame.rules false
     = @ChessAI.calculatePosition MirrorGame.rules true.
Proof.
  destruct (@colour_swap_symmetry MirrorGame.rules true false eq_refl)
    as (H1 & H2).
  exact (conj H1 (H2 eq_refl)).
Defined.

Lemma evaluators_in_range {R : Rules} (g : Game) :
  ChessBoard (board g) ->
  (-5580 <= Engine.evaluateBoard g <= 5580)
  /\ (-5580 <= ChessAI.calculatePosition g <= 5580).
Proof.
  intros H. pose proof (material_bounds _ H) as Hm.
  rewrite evaluateBoard_material, calculatePosition_material by apply H.
  unfold sideScore. destruct (turn g); lia.
Qed.

(** X4.  On the board of a legal chess position (64 squares, one king a
    side) the scores of both evaluators lie within 5580 of zero: a leaf
    score never reaches the sentinels -9999 and 9999 of [minimax], nor the
    bounds -10000 and 10000 of its initial window. *)
Theorem evaluators_within_sentinels {R : Rules} (g : Game) :
  ChessBoard (board g) ->
  (-5580 <= Engine.evaluateBoard g <= 5580)
  /\ (-5580 <= ChessAI.calculatePosition g <= 5580)
  /\ (-9999 < - Engine.evaluateBoard g < 9999).
Proof.
  intros H. pose proof (material_bounds _ H) as Hm.
  rewrite evaluateBoard_material, calculatePosition_material by apply H.
  unfold sideScore. destruct (turn g); lia.
Qed.

Lemma evaluators_within_sentinels_witness :
  (-5580 <= @Engine.evaluateBoard PathGame.upGame [] <= 5580)
  /\ (-5580 <= @ChessAI.calculatePosition PathGame.upGame [] <= 5580)
  /\ (-9999 < - @Engine.evaluateBoard PathGame.upGame [] < 9999).
Proof.
  apply (@evaluators_within_sentinels PathGame.upGame []).
  apply PathGame_boards.
Defined.

(** ** Moves that leave the opponent without a move *)

Lemma fold_min_le_elem {R : Rules} (f : Move -> Z) (ms : list Move) (x : Move) :
  In x ms -> forall acc, fold_left (fun b m => Z.min b (f m)) ms acc <= f x.
Proof.
  induction ms as [|m ms IH]; intros Hx acc; [destruct Hx|].
  cbn [fold_left]. destruct Hx as [<-|Hx].
  - pose proof (fold_min_le f ms (Z.min acc (f m))). lia.
  - now apply IH.
Qed.

Lemma fold_max_le_bound {R : Rules} (f : Move -> Z) (ms : list Move) (B : Z) :
  (forall m, In m ms -> f m <= B) ->
  forall acc, acc <= B -> fold_left (fun b m => Z.max b (f m)) ms acc <= B.
Proof.
  induction ms as [|m ms IH]; intros Hf acc Hacc; cbn [fold_left]; [lia|].
  pose proof (Hf m (or_introl eq_refl)).
  apply IH; [intros x Hx; apply Hf; right; exact Hx | lia].
Qed.

Lemma engine_leaf_bound {R : Rules} (g : Game) :
  LegalFrom g -> - Engine.evaluateBoard g <= 5580.
Proof.
  intros Hg. pose proof (Hg g (Reach_here g)) as Hb.
  rewrite evaluateBoard_material by apply Hb.
  pose proof (material_bounds _ Hb). lia.
Qed.

(** One or two plies below, a minimizing node of [engine.ts] that has a
    move is worth at most the material; without a move it is worth 9999. *)
Lemma engine_min_node {R : Rules} (g : Game) (k : nat) :
  (k <= 1)%nat -> LegalFrom g ->
  (moves g = [] -> Plain.engineValue g (S k) false = 9999)
  /\ (moves g <> [] -> Plain.engineValue g (S k) false <= 5580).
Proof.
  intros Hk Hg. unfold Plain.engineValue. cbn [Plain.value]. split.
  - intros ->. reflexivity.
  - intros Hne. destruct (moves g) as [|m ms] eqn:Hms; [congruence|].
    assert (Hm : In m (moves g)) by (rewrite Hms; left; reflexivity).
    pose proof (Reach_after g m Hm Hg) as Hgm.
    etransitivity;
      [apply (fold_min_le_elem _ (m :: ms) m (or_introl eq_refl))|].
    destruct k as [|[|k]]; [| |lia].
    + now apply engine_leaf_bound.
    + cbn [Plain.value]. apply fold_max_le_bound; [|lia].
      intros x Hx. apply engine_leaf_bound. now apply Reach_after.
Qed.

(** X5.  At Hard and Master, from a legal chess position, [getBestMove] of
    [engine.ts] returns the first legal move after which the opponent has
    no legal move, checkmate and stalemate alike, whenever there is such a
    move. *)
Theorem engine_takes_the_move_without_reply {R : Rules} :
  UndoRestores ->
  forall (g : Game) (difficulty : string) (rand : Q) (m0 : Move),
    In difficulty ["Hard"; "Master"]%string ->
    LegalFrom g ->
    In m0 (moves g) -> moves (move g m0) = [] ->
    exists m pre post,
      fst (Engine.getBestMove g difficulty rand) = Some m
      /\ moves g = pre ++ m :: post
      /\ moves (move g m) = []
      /\ forall x, In x pre -> moves (move g x) <> [].
Proof.
  intros undo_ok g difficulty rand m0 HD Hg Hm0 Hstuck.
  assert (HB : difficulty <> "Beginner"%string)
    by (destruct HD as [<-|[<-|[]]]; discriminate).
  assert (Hk : exists k, (Plain.depthOf difficulty - 1 = S k)%nat
                         /\ (k <= 1)%nat).
  { destruct HD as [<-|[<-|[]]]; [exists 0%nat | exists 1%nat];
      split; (reflexivity || lia). }
  destruct Hk as (k & Hd & Hk).
  assert (Hne : moves g <> []) by (intros E; rewrite E in Hm0; destruct Hm0).
  destruct (Engine_choice_first g difficulty rand undo_ok Hg HB Hne)
    as (m & Hr & Hf).
  pose proof (FirstMax_member Z Z.lt Z.le _ _ _ Hf) as Hm.
  pose proof (FirstMax_greatest Z Z.lt Z.le Z.lt_le_incl _ _ _
                (Z.le_refl _) Hf m0 Hm0) as Hbest.
  assert (Hs : forall x, In x (moves g) ->
               Engine.boardValue g (Plain.depthOf difficulty) x
               = Plain.engineValue (move g x) (S k) false).
  { intros x Hx. rewrite Engine_boardValue_plain by assumption.
    now rewrite Hd. }
  assert (Hnode : forall x, In x (moves g) ->
             (moves (move g x) = [] ->
              Plain.engineValue (move g x) (S k) false = 9999)
             /\ (moves (move g x) <> [] ->
                 Plain.engineValue (move g x) (S k) false <= 5580)).
  { intros x Hx. apply engine_min_node; [exact Hk | now apply Reach_after]. }
  rewrite (Hs m0 Hm0), (Hs m Hm) in Hbest.
  rewrite (proj1 (Hnode m0 Hm0) Hstuck) in Hbest.
  assert (Hmstuck : moves (move g m) = []).
  { destruct (moves (move g m)) as [|y ys] eqn:E; [reflexivity|].
    assert (Hy : moves (move g m) <> []) by (rewrite E; discriminate).
    pose proof (proj2 (Hnode m Hm) Hy). lia. }
  destruct Hf as (pre & post & Hsplit & Hpre & _).
  exists m, pre, post. repeat split; auto.
  intros x Hx Hxstuck.
  assert (Hxin : In x (moves g))
    by (rewrite Hsplit; apply in_or_app; left; exact Hx).
  specialize (Hpre x Hx). rewrite (Hs x Hxin), (Hs m Hm) in Hpre.
  rewrite (proj1 (Hnode x Hxin) Hxstuck) in Hpre.
  rewrite (proj1 (Hnode m Hm) Hmstuck) in Hpre. lia.
Qed.

Lemma engine_takes_the_move_without_reply_witness :
  exists m pre post,
    fst (@Engine.getBestMove MateGame.rules [] "Hard" 0) = Some m
    /\ [0; 1]%nat = pre ++ m :: post
    /\ @moves MateGame.rules (m :: []) = []
    /\ forall x, In x pre -> @moves MateGame.rules (x :: []) <> [].
Proof.
  apply (@engine_takes_the_move_without_reply MateGame.rules
           (PathGame_undo _ _ _) [] "Hard"%string 0%Q 1%nat).
  - left; reflexivity.
  - apply PathGame_legal.
  - right; left; reflexivity.
  - reflexivity.
Defined.

(** ** What [chess-ai.ts] does with such a move *)

Lemma fold_Num_min_le_elem {R : Rules} (f : Move -> Num.t) (ms : list Move)
      (x : Move) :
  In x ms ->
  forall acc, Num.le (fold_left (fun b m => Num.min b (f m)) ms acc) (f x).
Proof.
  induction ms as [|m ms IH]; intros Hx acc; [destruct Hx|].
  cbn [fold_left]. destruct Hx as [<-|Hx].
  - eapply Num_le_trans; [apply fold_Num_min_le | apply Num_le_min_r].
  - now apply IH.
Qed.

Lemma Num_max_not_PosInf (a b : Num.t) :
  a <> Num.PosInf -> b <> Num.PosInf -> Num.max a b <> Num.PosInf.
Proof. unfold Num.max. destruct (Num.leb a b); auto. Qed.

Lemma fold_Num_max_not_PosInf {R : Rules} (f : Move -> Num.t)
      (ms : list Move) :
  (forall m, In m ms -> f m <> Num.PosInf) ->
  forall acc, acc <> Num.PosInf ->
              fold_left (fun b m => Num.max b (f m)) ms acc <> Num.PosInf.
Proof.
  induction ms as [|m ms IH]; intros Hf acc Hacc; cbn [fold_left];
    [exact Hacc|].
  apply IH; [intros x Hx; apply Hf; right; exact Hx|].
  apply Num_max_not_PosInf; [exact Hacc | apply Hf; left; reflexivity].
Qed.

Lemma Num_le_PosInf (a : Num.t) : Num.le Num.PosInf a -> a = Num.PosInf.
Proof. unfold Num.le. destruct a; cbn; congruence. Qed.

(** One or two plies below, a minimizing node of [chess-ai.ts] is worth
    Infinity exactly when it has no move. *)
Lemma chessAI_min_node {R : Rules} (g : Game) (k : nat) :
  (k <= 1)%nat ->
  (moves g = [] <-> Plain.chessAIValue g (S k) false = Num.PosInf).
Proof.
  intros Hk. unfold Plain.chessAIValue. cbn [Plain.value]. split.
  - intros ->. reflexivity.
  - intros Hv. destruct (moves g) as [|m ms] eqn:Hms; [reflexivity|].
    exfalso.
    pose proof (fold_Num_min_le_elem
                  (fun m =>
                     Plain.value Num.max Num.min Num.NegInf Num.PosInf
                       (fun g => Num.Fin (ChessAI.calculatePosition g))
                       (move g m) k true)
                  (m :: ms) m (or_introl eq_refl) Num.PosInf) as Hle.
    cbv beta in Hle. rewrite Hv in Hle. apply Num_le_PosInf in Hle.
    destruct k as [|[|k]]; [| |lia].
    + discriminate Hle.
    + cbn [Plain.value] in Hle. revert Hle.
      apply fold_Num_max_not_PosInf; [|discriminate].
      intros x _. discriminate.
Qed.

Lemma Num_opp_NegInf (a : Num.t) : Num.opp a = Num.NegInf <-> a = Num.PosInf.
Proof. destruct a; cbn; split; congruence. Qed.

Lemma chessAI_stuck_score {R : Rules} (g : Game) (difficulty : string) :
  UndoRestores ->
  In difficulty ["Hard"; "Master"]%string ->
  forall m, ChessAI.boardValue g (Plain.depthOf difficulty) m = Num.NegInf
            <-> moves (move g m) = [].
Proof.
  intros undo_ok HD m.
  assert (Hk : exists k, (Plain.depthOf difficulty - 1 = S k)%nat
                         /\ (k <= 1)%nat).
  { destruct HD as [<-|[<-|[]]]; [exists 0%nat | exists 1%nat];
      split; (reflexivity || lia). }
  destruct Hk as (k & Hd & Hk).
  rewrite ChessAI_boardValue_plain by assumption.
  rewrite Hd, Num_opp_NegInf. symmetry. now apply chessAI_min_node.
Qed.

(** X6.  At Hard and Master a root move of [chess-ai.ts] scores -Infinity
    exactly when it leaves the opponent without a legal move; so, as long
    as some legal move leaves the opponent a reply, [getBestMove] returns a
    move that leaves a reply, and never the move that mates. *)
Theorem chessAI_avoids_the_move_without_reply {R : Rules} :
  UndoRestores ->
  forall (g : Game) (difficulty : string) (rand : Q),
    In difficulty ["Hard"; "Master"]%string ->
    (forall m, ChessAI.boardValue g (Plain.depthOf difficulty) m = Num.NegInf
               <-> moves (move g m) = [])
    /\ forall m0,
        In m0 (moves g) -> moves (move g m0) <> [] ->
        exists m,
          fst (ChessAI.getBestMove g difficulty rand) = Some m
          /\ In m (moves g)
          /\ moves (move g m) <> [].
Proof.
  intros undo_ok g difficulty rand HD.
  assert (HB : difficulty <> "Beginner"%string)
    by (destruct HD as [<-|[<-|[]]]; discriminate).
  pose proof (chessAI_stuck_score g difficulty undo_ok HD) as Hscore.
  split; [exact Hscore|].
  intros m0 Hm0 Hreply.
  assert (Hne : moves g <> []) by (intros E; rewrite E in Hm0; destruct Hm0).
  destruct (ChessAI_choice_first g difficulty rand undo_ok HB Hne)
    as (m & Hr & Hf).
  pose proof (FirstMax_member Num.t Num.lt Num.le _ _ _ Hf) as Hm.
  pose proof (FirstMax_greatest Num.t Num.lt Num.le Num_lt_le _ _ _
                (Num_leb_refl _) Hf m0 Hm0) as Hbest.
  exists m. repeat split; auto.
  intros Hstuck. apply Hscore in Hstuck. rewrite Hstuck in Hbest.
  apply Num_le_NegInf in Hbest. apply Hscore in Hbest. contradiction.
Qed.

Lemma chessAI_avoids_the_move_without_reply_witness :
  exists m,
    fst (@ChessAI.getBestMove MateGame.rules [] "Master" 0) = Some m
    /\ In m [0; 1]%nat
    /\ @moves MateGame.rules (m :: []) <> [].
Proof.
  destruct (@chessAI_avoids_the_move_without_reply MateGame.rules
              (PathGame_undo _ _ _) [] "Master"%string 0%Q) as (_ & H).
  - right; left; reflexivity.
  - apply (H 0%nat); [left; reflexivity | discriminate].
Defined.

(** ** The values of [chess-ai.ts] at Hard and Master *)

Lemma fold_left_ext_in (A B : Type) (f f' : B -> A -> B) (l : list A) :
  (forall b x, In x l -> f b x = f' b x) ->
  forall acc, fold_left f l acc = fold_left f' l acc.
Proof.
  induction l as [|x l IH]; intros H acc; cbn [fold_left]; [reflexivity|].
  rewrite (H acc x) by (left; reflexivity).
  apply IH. intros b y Hy. apply H. right; exact Hy.
Qed.

(** The plain value looks at the leaves only. *)
Lemma value_ext {R : Rules} (V : Type) (vmax vmin : V -> V -> V) (lo hi : V)
      (leaf leaf' : Game -> V) (d : nat) :
  forall (g : Game) (isMax : bool),
    AtDepth d (fun x => leaf x = leaf' x) g ->
    Plain.value vmax vmin lo hi leaf g d isMax
    = Plain.value vmax vmin lo hi leaf' g d isMax.
Proof.
  induction d as [|d IH]; intros g isMax H; cbn [Plain.value].
  - exact H.
  - destruct isMax; apply fold_left_ext_in; intros b m Hm;
      now rewrite (IH (move g m) _ (H m Hm)).
Qed.

Lemma AtDepth_impl {R : Rules} (P Q : Game -> Prop) (d : nat) :
  (forall x, P x -> Q x) ->
  forall g, AtDepth d P g -> AtDepth d Q g.
Proof.
  intros HPQ. induction d as [|d IH]; intros g H; cbn [AtDepth] in *.
  - now apply HPQ.
  - intros m Hm. apply IH, H, Hm.
Qed.

(** In a legal game the positions [d] plies below [g] have proper boards,
    and the side to move there is that of [g] after an even number of
    plies and the other side after an odd number. *)
Lemma AtDepth_legal {R : Rules} (d : nat) :
  TurnsAlternate ->
  forall g, LegalFrom g ->
    AtDepth d (fun x => Board8x8 (board x)
                        /\ turn x = if Nat.even d then turn g
                                    else opposite (turn g)) g.
Proof.
  intros alt. induction d as [|d IH]; intros g Hg.
  - split; [apply (Hg g (Reach_here g)) | reflexivity].
  - intros m Hm. cbn [AtDepth].
    apply (AtDepth_impl
             (fun x => Board8x8 (board x)
                       /\ turn x = if Nat.even d then turn (move g m)
                                   else opposite (turn (move g m))));
      [|apply IH; now apply Reach_after].
    intros x [Hb Ht]. split; [exact Hb|].
    rewrite Ht, (alt g m Hm), Nat.even_succ, <- Nat.negb_even.
    destruct (Nat.even d), (turn g); reflexivity.
Qed.

Lemma Num_opp_le (a b : Num.t) : Num.le (Num.opp a) (Num.opp b) <-> Num.le b a.
Proof.
  unfold Num.le. destruct a, b; cbn; try tauto; try (split; congruence).
  rewrite !Z.leb_le. lia.
Qed.

Lemma Num_opp_lt (a b : Num.t) : Num.lt (Num.opp a) (Num.opp b) <-> Num.lt b a.
Proof.
  unfold Num.lt, Num.ltb. rewrite !negb_true_iff, <- !not_true_iff_false.
  pose proof (Num_opp_le b a) as H. unfold Num.le in H. tauto.
Qed.

(** X7.  At Hard, from a legal position with a legal move, [getBestMove] of
    [chess-ai.ts] returns the first root move whose depth-2 minimax value
    for the side to move (the opponent minimizing over the replies) is the
    least among the root moves: every root move is worth at least as much
    to the side to move, and every earlier one strictly more. *)
Theorem chessAI_hard_returns_the_least {R : Rules} :
  UndoRestores -> TurnsAlternate ->
  forall (g : Game) (rand : Q),
    LegalFrom g -> moves g <> [] ->
    let value m :=
      Plain.sideValue Num.NegInf Num.PosInf (turn g) (move g m) 1 false in
    exists m pre post,
      fst (ChessAI.getBestMove g "Hard" rand) = Some m
      /\ moves g = pre ++ m :: post
      /\ (forall x, In x (moves g) -> Num.le (value m) (value x))
      /\ (forall x, In x pre -> Num.lt (value m) (value x)).
Proof.
  intros undo_ok alt g rand Hg Hne value.
  assert (HB : "Hard"%string <> "Beginner"%string) by discriminate.
  destruct (ChessAI_choice_first g "Hard" rand undo_ok HB Hne)
    as (m & Hr & Hf).
  assert (Hs : forall x, In x (moves g) ->
               ChessAI.boardValue g (Plain.depthOf "Hard") x
               = Num.opp (value x)).
  { intros x Hx. rewrite ChessAI_boardValue_plain by assumption.
    change (Plain.depthOf "Hard" - 1)%nat with 1%nat.
    f_equal. unfold value, Plain.chessAIValue, Plain.sideValue.
    apply value_ext.
    apply (AtDepth_impl
             (fun y => Board8x8 (board y)
                       /\ turn y = if Nat.even 1 then turn (move g x)
                                   else opposite (turn (move g x))));
      [|apply (AtDepth_legal 1 alt); now apply Reach_after].
    intros y [Hb Ht]. rewrite calculatePosition_material by exact Hb.
    rewrite Ht, (alt g x Hx). cbn [Nat.even].
    now destruct (turn g). }
  pose proof (FirstMax_member Num.t Num.lt Num.le _ _ _ Hf) as Hm.
  pose proof (FirstMax_greatest Num.t Num.lt Num.le Num_lt_le _ _ _
                (Num_leb_refl _) Hf) as Hbest.
  destruct Hf as (pre & post & Hsplit & Hpre & _).
  exists m, pre, post. repeat split; auto.
  - intros x Hx. specialize (Hbest x Hx).
    rewrite (Hs x Hx), (Hs m Hm) in Hbest.
    exact (proj1 (Num_opp_le _ _) Hbest).
  - intros x Hx.
    assert (Hxin : In x (moves g))
      by (rewrite Hsplit; apply in_or_app; left; exact Hx).
    specialize (Hpre x Hx).
    rewrite (Hs x Hxin), (Hs m Hm) in Hpre.
    exact (proj1 (Num_opp_lt _ _) Hpre).
Qed.

Lemma chessAI_hard_returns_the_least_witness :
  let value m :=
    @Plain.sideValue PathGame.queenGame Num.NegInf Num.PosInf Black
                     (m :: []) 1 false in
  exists m pre post,
    fst (@ChessAI.getBestMove PathGame.queenGame [] "Hard" 0) = Some m
    /\ [0; 1]%nat = pre ++ m :: post
    /\ (forall x, In x [0; 1]%nat -> Num.le (value m) (value x))
    /\ (forall x, In x pre -> Num.lt (value m) (value x)).
Proof.
  apply (@chessAI_hard_returns_the_least PathGame.queenGame
           (PathGame_undo _ _ _) (PathGame_turns _ _ _) [] 0%Q).
  - apply PathGame_legal.
  - discriminate.
Defined.

Lemma Num_opp_min (a b : Num.t) :
  Num.opp (Num.min a b) = Num.max (Num.opp a) (Num.opp b).
Proof.
  unfold Num.min, Num.max. destruct a as [|x|], b as [|y|]; cbn; auto.
  destruct (Z.leb_spec x y), (Z.leb_spec (- x) (- y)); cbn; f_equal; lia.
Qed.

Lemma Num_opp_max (a b : Num.t) :
  Num.opp (Num.max a b) = Num.min (Num.opp a) (Num.opp b).
Proof.
  unfold Num.min, Num.max. destruct a as [|x|], b as [|y|]; cbn; auto.
  destruct (Z.leb_spec x y), (Z.leb_spec (- x) (- y)); cbn; f_equal; lia.
Qed.

Lemma fold_opp {R : Rules} (op op' : Num.t -> Num.t -> Num.t)
      (f f' : Move -> Num.t) (ms : list Move) :
  (forall a b, Num.opp (op a b) = op' (Num.opp a) (Num.opp b)) ->
  (forall m, In m ms -> Num.opp (f m) = f' m) ->
  forall acc,
    Num.opp (fold_left (fun b m => op b (f m)) ms acc)
    = fold_left (fun b m => op' b (f' m)) ms (Num.opp acc).
Proof.
  intros Hop. induction ms as [|m ms IH]; intros Hf acc; cbn [fold_left].
  - reflexivity.
  - rewrite IH by (intros x Hx; apply Hf; right; exact Hx).
    now rewrite Hop, (Hf m (or_introl eq_refl)).
Qed.

(** Negating the value of a node is the value of the node of the other
    kind over the negated leaves. *)
Lemma value_opp {R : Rules} (leaf : Game -> Num.t) (d : nat) :
  forall (g : Game) (isMax : bool),
    Num.opp (Plain.value Num.max Num.min Num.NegInf Num.PosInf leaf g d isMax)
    = Plain.value Num.max Num.min Num.NegInf Num.PosInf
                  (fun x => Num.opp (leaf x)) g d (negb isMax).
Proof.
  induction d as [|d IH]; intros g isMax; cbn [Plain.value]; [reflexivity|].
  destruct isMax; cbn [negb].
  - apply (fold_opp Num.max Num.min); [apply Num_opp_max|].
    intros m _. apply (IH (move g m) false).
  - apply (fold_opp Num.min Num.max); [apply Num_opp_min|].
    intros m _. apply (IH (move g m) true).
Qed.

(** X8.  At Master, from a legal position with a legal move, [getBestMove]
    of [chess-ai.ts] returns the first root move with the greatest value
    of this depth-3 search of the material of the side to move: after the
    root move the replies of the opponent are taken at their maximum for
    the side to move and its own second moves at their minimum, the kinds
    of the nodes below the root being exchanged. *)
Theorem chessAI_master_exchanges_the_roles {R : Rules} :
  UndoRestores -> TurnsAlternate ->
  forall (g : Game) (rand : Q),
    LegalFrom g -> moves g <> [] ->
    let value m :=
      Plain.sideValue Num.NegInf Num.PosInf (turn g) (move g m) 2 true in
    exists m pre post,
      fst (ChessAI.getBestMove g "Master" rand) = Some m
      /\ moves g = pre ++ m :: post
      /\ (forall x, In x (moves g) -> Num.le (value x) (value m))
      /\ (forall x, In x pre -> Num.lt (value x) (value m)).
Proof.
  intros undo_ok alt g rand Hg Hne value.
  assert (HB : "Master"%string <> "Beginner"%string) by discriminate.
  destruct (ChessAI_choice_first g "Master" rand undo_ok HB Hne)
    as (m & Hr & Hf).
  assert (Hs : forall x, In x (moves g) ->
               ChessAI.boardValue g (Plain.depthOf "Master") x = value x).
  { intros x Hx. rewrite ChessAI_boardValue_plain by assumption.
    change (Plain.depthOf "Master" - 1)%nat with 2%nat.
    unfold value, Plain.chessAIValue, Plain.sideValue.
    rewrite value_opp. cbn [negb].
    apply value_ext.
    apply (AtDepth_impl
             (fun y => Board8x8 (board y)
                       /\ turn y = if Nat.even 2 then turn (move g x)
                                   else opposite (turn (move g x))));
      [|apply (AtDepth_legal 2 alt); now apply Reach_after].
    intros y [Hb Ht]. rewrite calculatePosition_material by exact Hb.
    rewrite Ht, (alt g x Hx). cbn [Nat.even Num.opp].
    rewrite sideScore_opposite. now rewrite Z.opp_involutive. }
  pose proof (FirstMax_member Num.t Num.lt Num.le _ _ _ Hf) as Hm.
  pose proof (FirstMax_greatest Num.t Num.lt Num.le Num_lt_le _ _ _
                (Num_leb_refl _) Hf) as Hbest.
  destruct Hf as (pre & post & Hsplit & Hpre & _).
  exists m, pre, post. repeat split; auto.
  - intros x Hx. specialize (Hbest x Hx).
    now rewrite (Hs x Hx), (Hs m Hm) in Hbest.
  - intros x Hx.
    assert (Hxin : In x (moves g))
      by (rewrite Hsplit; apply in_or_app; left; exact Hx).
    specialize (Hpre x Hx).
    now rewrite (Hs x Hxin), (Hs m Hm) in Hpre.
Qed.

Lemma chessAI_master_exchanges_the_roles_witness :
  let value m :=
    @Plain.sideValue PathGame.queenGame Num.NegInf Num.PosInf Black
                     (m :: []) 2 true in
  exists m pre post,
    fst (@ChessAI.getBestMove PathGame.queenGame [] "Master" 0) = Some m
    /\ [0; 1]%nat = pre ++ m :: post
    /\ (forall x, In x [0; 1]%nat -> Num.le (value x) (value m))
    /\ (forall x, In x pre -> Num.lt (value x) (value m)).
Proof.
  apply (@chessAI_master_exchanges_the_roles PathGame.queenGame
           (PathGame_undo _ _ _) (PathGame_turns _ _ _) [] 0%Q).
  - apply PathGame_legal.
  - discriminate.
Defined.

(** ** The Beginner level *)





(** ** The horizon of the search *)

Section Horizon.
Context {R : Rules}.
Hypothesis undo_ok : UndoRestores.

Lemma Engine_loops_same (child1 child2 : Game -> Z -> Z -> Z * Game)
      (g1 g2 : Game) :
  (forall m a b, In m (moves g1) -> snd (child1 (move g1 m) a b) = move g1 m) ->
  (forall m a b, In m (moves g2) -> snd (child2 (move g2 m) a b) = move g2 m) ->
  forall ms1 ms2,
    Forall2 (fun m1 m2 => forall a b, fst (child1 (move g1 m1) a b)
                                      = fst (child2 (move g2 m2) a b))
            ms1 ms2 ->
    incl ms1 (moves g1) -> incl ms2 (moves g2) ->
    forall alpha beta best,
      fst (Engine.maxLoop child1 ms1 g1 alpha beta best)
      = fst (Engine.maxLoop child2 ms2 g2 alpha beta best)
      /\ fst (Engine.minLoop child1 ms1 g1 alpha beta best)
         = fst (Engine.minLoop child2 ms2 g2 alpha beta best).
Proof.
  intros Hs1 Hs2 ms1 ms2 HF.
  induction HF as [|m1 m2 ms1 ms2 Hv HF IH]; intros Hin1 Hin2 alpha beta best.
  - split; reflexivity.
  - assert (Hm1 : In m1 (moves g1)) by (apply Hin1; left; reflexivity).
    assert (Hm2 : In m2 (moves g2)) by (apply Hin2; left; reflexivity).
    assert (Hin1' : incl ms1 (moves g1))
      by (intros x Hx; apply Hin1; right; exact Hx).
    assert (Hin2' : incl ms2 (moves g2))
      by (intros x Hx; apply Hin2; right; exact Hx).
    specialize (IH Hin1' Hin2').
    cbn [Engine.maxLoop Engine.minLoop].
    pose proof (Hs1 m1 alpha beta Hm1) as E1.
    pose proof (Hs2 m2 alpha beta Hm2) as E2.
    pose proof (Hv alpha beta) as Ev.
    destruct (child1 (move g1 m1) alpha beta) as [v1 s1].
    destruct (child2 (move g2 m2) alpha beta) as [v2 s2].
    cbn [fst snd] in *. subst s1 s2 v2.
    rewrite (undo_ok _ _ Hm1), (undo_ok _ _ Hm2). split.
    + destruct (beta <=? Z.max alpha (Z.max best v1)); [reflexivity|].
      apply IH.
    + destruct (Z.min beta (Z.min best v1) <=? alpha); [reflexivity|].
      apply IH.
Qed.

Lemma ChessAI_loops_same
      (child1 child2 : Game -> Num.t -> Num.t -> Num.t * Game)
      (g1 g2 : Game) :
  (forall m a b, In m (moves g1) -> snd (child1 (move g1 m) a b) = move g1 m) ->
  (forall m a b, In m (moves g2) -> snd (child2 (move g2 m) a b) = move g2 m) ->
  forall ms1 ms2,
    Forall2 (fun m1 m2 => forall a b, fst (child1 (move g1 m1) a b)
                                      = fst (child2 (move g2 m2) a b))
            ms1 ms2 ->
    incl ms1 (moves g1) -> incl ms2 (moves g2) ->
    forall alpha beta best,
      fst (ChessAI.maxLoop child1 ms1 g1 alpha beta best)
      = fst (ChessAI.maxLoop child2 ms2 g2 alpha beta best)
      /\ fst (ChessAI.minLoop child1 ms1 g1 alpha beta best)
         = fst (ChessAI.minLoop child2 ms2 g2 alpha beta best).
Proof.
  intros Hs1 Hs2 ms1 ms2 HF.
  induction HF as [|m1 m2 ms1 ms2 Hv HF IH]; intros Hin1 Hin2 alpha beta best.
  - split; reflexivity.
  - assert (Hm1 : In m1 (moves g1)) by (apply Hin1; left; reflexivity).
    assert (Hm2 : In m2 (moves g2)) by (apply Hin2; left; reflexivity).
    assert (Hin1' : incl ms1 (moves g1))
      by (intros x Hx; apply Hin1; right; exact Hx).
    assert (Hin2' : incl ms2 (moves g2))
      by (intros x Hx; apply Hin2; right; exact Hx).
    specialize (IH Hin1' Hin2').
    cbn [ChessAI.maxLoop ChessAI.minLoop].
    pose proof (Hs1 m1 alpha beta Hm1) as E1.
    pose proof (Hs2 m2 alpha beta Hm2) as E2.
    pose proof (Hv alpha beta) as Ev.
    destruct (child1 (move g1 m1) alpha beta) as [v1 s1].
    destruct (child2 (move g2 m2) alpha beta) as [v2 s2].
    cbn [fst snd] in *. subst s1 s2 v2.
    rewrite (undo_ok _ _ Hm1), (undo_ok _ _ Hm2). split.
    + destruct (Num.leb beta (Num.max alpha (Num.max best v1)));
        [reflexivity|].
      apply IH.
    + destruct (Num.leb (Num.min beta (Num.min best v1)) alpha);
        [reflexivity|].
      apply IH.
Qed.

Lemma Forall2_impl (A B : Type) (P Q : A -> B -> Prop) (l1 : list A)
      (l2 : list B) :
  (forall a b, P a b -> Q a b) -> Forall2 P l1 l2 -> Forall2 Q l1 l2.
Proof. intros H HF. induction HF; constructor; auto. Qed.

Lemma Engine_minimax_same (d : nat) :
  forall g1 g2, SameTo d g1 g2 ->
  forall alpha beta isMax,
    fst (Engine.minimax g1 d alpha beta isMax)
    = fst (Engine.minimax g2 d alpha beta isMax).
Proof.
  induction d as [|d IH]; intros g1 g2 Hsame alpha beta isMax.
  - destruct Hsame as [Hb _]. cbn [Engine.minimax fst].
    unfold Engine.evaluateBoard. now rewrite Hb.
  - cbn [Engine.minimax SameTo] in *.
    destruct isMax;
      apply Engine_loops_same;
      try (intros m a b _; apply (Engine_minimax_state undo_ok));
      try apply incl_refl;
      (eapply Forall2_impl; [|exact Hsame]);
      intros m1 m2 Hm a b; now apply IH.
Qed.

Lemma ChessAI_evaluateBoard_same (d : nat) :
  forall g1 g2, SameTo d g1 g2 ->
  forall alpha beta isMax,
    fst (ChessAI.evaluateBoard g1 d alpha beta isMax)
    = fst (ChessAI.evaluateBoard g2 d alpha beta isMax).
Proof.
  induction d as [|d IH]; intros g1 g2 Hsame alpha beta isMax.
  - destruct Hsame as [Hb Ht]. cbn [ChessAI.evaluateBoard fst].
    unfold ChessAI.calculatePosition. now rewrite Hb, Ht.
  - cbn [ChessAI.evaluateBoard SameTo] in *.
    destruct isMax;
      apply ChessAI_loops_same;
      try (intros m a b _; apply (ChessAI_evaluateBoard_state undo_ok));
      try apply incl_refl;
      (eapply Forall2_impl; [|exact Hsame]);
      intros m1 m2 Hm a b; now apply IH.
Qed.
End Horizon.

(** X10.  A search of depth [d] sees nothing beyond its horizon: two
    positions that have, ply by ply down to depth [d], as many moves, and
    at depth [d] the same boards and sides to move, get the same value
    from [minimax] and from [evaluateBoard], whatever the window, whatever
    the boards above depth [d] and whatever follows below it. *)
Theorem search_sees_to_its_depth_only {R : Rules} :
  UndoRestores ->
  forall (d : nat) (g1 g2 : Game),
    SameTo d g1 g2 ->
    (forall alpha beta isMaximizing,
        fst (Engine.minimax g1 d alpha beta isMaximizing)
        = fst (Engine.minimax g2 d alpha beta isMaximizing))
    /\ (forall alpha beta isMaximizing,
           fst (ChessAI.evaluateBoard g1 d alpha beta isMaximizing)
           = fst (ChessAI.evaluateBoard g2 d alpha beta isMaximizing)).
Proof.
  intros undo_ok d g1 g2 H. split; intros alpha beta isMaximizing.
  - now apply Engine_minimax_same.
  - now apply ChessAI_evaluateBoard_same.
Qed.

Lemma search_sees_to_its_depth_only_witness :
  (forall alpha beta isMaximizing,
      fst (@Engine.minimax PathGame.upGame [] 1 alpha beta isMaximizing)
      = fst (@Engine.minimax PathGame.upGame [0; 0]%nat 1
                             alpha beta isMaximizing))
  /\ (forall alpha beta isMaximizing,
         fst (@ChessAI.evaluateBoard PathGame.upGame [] 1
                                     alpha beta isMaximizing)
         = fst (@ChessAI.evaluateBoard PathGame.upGame [0; 0]%nat 1
                                       alpha beta isMaximizing)).
Proof.
  apply (@search_sees_to_its_depth_only PathGame.upGame
           (PathGame_undo _ _ _) 1%nat [] [0; 0]%nat).
  constructor; [split; reflexivity | constructor].
Defined.

(** ** Where the two variants agree *)

Lemma firstBest_Fin {R : Rules} (es : Move -> Z) (cs : Move -> Num.t)
      (ms : list Move) :
  (forall m, In m ms -> cs m = Num.Fin (es m)) ->
  forall bm bv,
    Plain.firstBest (fun a b => Num.ltb b a) cs ms bm (Num.Fin bv)
    = Plain.firstBest (fun a b => b <? a) es ms bm bv.
Proof.
  induction ms as [|m ms IH]; intros H bm bv; cbn [Plain.firstBest].
  - reflexivity.
  - rewrite (H m (or_introl eq_refl)).
    assert (E : Num.ltb (Num.Fin bv) (Num.Fin (es m)) = (bv <? es m)).
    { unfold Num.ltb. cbn. now rewrite Z.ltb_antisym. }
    rewrite E.
    destruct (bv <? es m); apply IH; intros x Hx; apply H; right; exact Hx.
Qed.

(** X11.  At Easy, from a legal position with Black to move, the two
    variants return the same move. *)
Theorem variants_agree_at_easy_for_black {R : Rules} :
  UndoRestores -> TurnsAlternate ->
  forall (g : Game) (rand : Q),
    LegalFrom g -> turn g = Black ->
    fst (Engine.getBestMove g "Easy" rand)
    = fst (ChessAI.getBestMove g "Easy" rand).
Proof.
  intros undo_ok alt g rand Hg Ht.
  assert (HB : "Easy"%string <> "Beginner"%string) by discriminate.
  rewrite (Engine_getBestMove_plain undo_ok g "Easy" rand Hg HB).
  rewrite (ChessAI_getBestMove_plain undo_ok g "Easy" rand HB).
  cbn [fst]. unfold Plain.engineChoice, Plain.chessAIChoice.
  change (Plain.depthOf "Easy" - 1)%nat with 0%nat.
  set (es := fun m => Plain.engineValue (move g m) 0 false).
  set (cs := fun m => Num.opp (Plain.chessAIValue (move g m) 0 false)).
  assert (Hcs : forall m, In m (moves g) -> cs m = Num.Fin (es m)).
  { intros m Hm. unfold cs, es, Plain.chessAIValue, Plain.engineValue.
    cbn [Plain.value Num.opp].
    pose proof (Reach_after g m Hm Hg (move g m) (Reach_here _)) as Hb.
    rewrite calculatePosition_material, evaluateBoard_material by apply Hb.
    now rewrite (alt g m Hm), Ht. }
  assert (Hes : forall m, In m (moves g) -> -9999 < es m).
  { intros m Hm. unfold es.
    pose proof (Reach_after g m Hm Hg (move g m) (Reach_here _)) as Hb.
    change (Plain.engineValue (move g m) 0 false)
      with (- Engine.evaluateBoard (move g m)).
    pose proof (evaluators_in_range (move g m) Hb). lia. }
  destruct (moves g) as [|m0 ms] eqn:Hms; [reflexivity|].
  cbn [Plain.firstBest].
  rewrite (Hcs m0 (or_introl eq_refl)).
  change (Num.ltb Num.NegInf (Num.Fin (es m0))) with true.
  assert (E : (-9999 <? es m0) = true)
    by (apply Z.ltb_lt, Hes; left; reflexivity).
  rewrite E.
  rewrite (firstBest_Fin es cs ms)
    by (intros x Hx; apply Hcs; right; exact Hx).
  reflexivity.
Qed.

Lemma variants_agree_at_easy_for_black_witness :
  fst (@Engine.getBestMove PathGame.queenGame [] "Easy" 0)
  = fst (@ChessAI.getBestMove PathGame.queenGame [] "Easy" 0).
Proof.
  apply (@variants_agree_at_easy_for_black PathGame.queenGame
           (PathGame_undo _ _ _) (PathGame_turns _ _ _) [] 0%Q).
  - apply PathGame_legal.
  - reflexivity.
Defined.

(** ** When the fallback to the first move is used *)

Lemma fold_min_ge_bound {R : Rules} (f : Move -> Z) (ms : list Move) (B : Z) :
  (forall m, In m ms -> B <= f m) ->
  forall acc, B <= acc -> B <= fold_left (fun b m => Z.min b (f m)) ms acc.
Proof.
  induction ms as [|m ms IH]; intros Hf acc Hacc; cbn [fold_left]; [lia|].
  pose proof (Hf m (or_introl eq_refl)).
  apply IH; [intros x Hx; apply Hf; right; exact Hx | lia].
Qed.

Lemma engine_leaf_low {R : Rules} (g : Game) :
  LegalFrom g -> -5580 <= - Engine.evaluateBoard g.
Proof.
  intros Hg. pose proof (Hg g (Reach_here g)) as Hb.
  rewrite evaluateBoard_material by apply Hb.
  pose proof (material_bounds _ Hb). lia.
Qed.

(** X12.  The fallback [bestMove || moves[0]] after the root loop.  In
    [engine.ts], at Easy and Hard, from a legal position with a legal
    move, the loop always sets [bestMove]: the fallback is not used.  In
    [chess-ai.ts] the loop always sets it at Easy, and at Hard and Master
    it leaves it unset exactly when every legal move leaves the opponent
    without a legal move. *)
Theorem when_the_fallback_is_used {R : Rules} :
  UndoRestores ->
  forall g : Game,
    moves g <> [] ->
    (forall difficulty,
        In difficulty ["Easy"; "Hard"]%string -> LegalFrom g ->
        fst (Engine.rootLoop (Plain.depthOf difficulty) (moves g) g
                             None (-9999)) <> None)
    /\ fst (ChessAI.rootLoop (Plain.depthOf "Easy") (moves g) g
                             None Num.NegInf) <> None
    /\ (forall difficulty,
           In difficulty ["Hard"; "Master"]%string ->
           fst (ChessAI.rootLoop (Plain.depthOf difficulty) (moves g) g
                                 None Num.NegInf) = None
           <-> forall m, In m (moves g) -> moves (move g m) = []).
Proof.
  intros undo_ok g Hne.
  destruct (head_of_nonempty _ _ Hne) as (m0 & _ & Hm0).
  split; [|split].
  - intros difficulty HD Hg.
    rewrite (Engine_rootLoop_scores undo_ok _ g (moves g) (incl_refl _)).
    cbn [fst].
    destruct (firstBest_spec Z Z.lt Z.le (fun a b => b <? a)
                (fun a b H => proj1 (Z.ltb_lt b a) H)
                (fun a b H => proj1 (Z.ltb_ge b a) H)
                Z.lt_trans Z.le_lt_trans
                (Engine.boardValue g (Plain.depthOf difficulty))
                (moves g) None (-9999))
      as [[_ Hall]|(m & Hr & _)]; [|rewrite Hr; discriminate].
    exfalso. specialize (Hall m0 Hm0).
    rewrite Engine_boardValue_plain in Hall by assumption.
    pose proof (Reach_after g m0 Hm0 Hg) as Hg0.
    assert (Hlow : -5580 <= Plain.engineValue (move g m0)
                              (Plain.depthOf difficulty - 1) false).
    { destruct HD as [<-|[<-|[]]].
      - now apply engine_leaf_low.
      - change (Plain.depthOf "Hard" - 1)%nat with 1%nat.
        unfold Plain.engineValue. cbn [Plain.value].
        apply fold_min_ge_bound; [|lia].
        intros x Hx. apply engine_leaf_low. now apply Reach_after. }
    lia.
  - rewrite (ChessAI_rootLoop_scores undo_ok _ g (moves g) (incl_refl _)).
    cbn [fst].
    destruct (firstBest_spec Num.t Num.lt Num.le (fun a b => Num.ltb b a)
                (fun a b H => H) (fun a b H => Num_ltb_false a b H)
                Num_lt_trans Num_le_lt_trans
                (ChessAI.boardValue g (Plain.depthOf "Easy"))
                (moves g) None Num.NegInf)
      as [[_ Hall]|(m & Hr & _)]; [|rewrite Hr; discriminate].
    exfalso. specialize (Hall m0 Hm0). apply Num_le_NegInf in Hall.
    rewrite ChessAI_boardValue_plain in Hall by assumption.
    discriminate Hall.
  - intros difficulty HD.
    rewrite (ChessAI_rootLoop_scores undo_ok _ g (moves g) (incl_refl _)).
    cbn [fst]. split.
    + intros Hnone m Hm.
      destruct (firstBest_spec Num.t Num.lt Num.le (fun a b => Num.ltb b a)
                  (fun a b H => H) (fun a b H => Num_ltb_false a b H)
                  Num_lt_trans Num_le_lt_trans
                  (ChessAI.boardValue g (Plain.depthOf difficulty))
                  (moves g) None Num.NegInf)
        as [[_ Hall]|(m' & Hr & _)]; [|congruence].
      apply (chessAI_stuck_score g difficulty undo_ok HD).
      apply Num_le_NegInf, Hall, Hm.
    + intros Hall. apply firstBest_nothing_better.
      intros m Hm.
      rewrite (proj2 (chessAI_stuck_score g difficulty undo_ok HD m)
                     (Hall m Hm)).
      reflexivity.
Qed.

Lemma when_the_fallback_is_used_witness :
  fst (@Engine.rootLoop PathGame.pawnGame 2 [0; 1]%nat [] None (-9999))
  <> None
  /\ fst (@ChessAI.rootLoop PathGame.pawnGame 1 [0; 1]%nat [] None Num.NegInf)
     <> None
  /\ fst (@ChessAI.rootLoop PathGame.pawnGame 2 [0; 1]%nat [] None Num.NegInf)
     = None.
Proof.
  destruct (@when_the_fallback_is_used PathGame.pawnGame
              (PathGame_undo _ _ _) []) as (HE & HC & HF); [discriminate|].
  refine (conj (HE "Hard"%string _ (PathGame_legal _ _ _ [])) (conj HC _)).
  - right; left; reflexivity.
  - apply (HF "Hard"%string); [left; reflexivity|].
    intros m _. reflexivity.
Defined.

(** ** The effects that call the engine *)


Lemma aiGuard_true {R : Rules} {S : Status R} (mode : string) (g : Game) :
  App.aiGuard mode g = true ->
  mode = "AI"%string /\ turn g = Black /\ game_over g = false.
Proof.
  unfold App.aiGuard. rewrite !andb_true_iff, String.eqb_eq, negb_true_iff.
  intros [[Hm Ht] Ho]. repeat split; auto.
  destruct (turn g); [discriminate Ht | reflexivity].
Qed.




Lemma Engine_best_for_black {R : Rules} (g : Game) (difficulty : string)
      (rand : Q) :
  UndoRestores -> LegalFrom g ->
  difficulty <> "Beginner"%string -> moves g <> [] ->
  exists m,
    fst (Engine.getBestMove g difficulty rand) = Some m
    /\ Plain.BestFor (Num.Fin (-9999)) (Num.Fin 9999) Black g
                     (Plain.depthOf difficulty) m.
Proof.
  intros undo_ok Hg HB Hne.
  destruct (Engine_choice_first g difficulty rand undo_ok Hg HB Hne)
    as (m & Hr & Hf).
  exists m. split; [exact Hr|].
  pose proof (FirstMax_member Z Z.lt Z.le _ _ _ Hf) as Hm.
  split; [exact Hm|]. intros m' Hm'.
  rewrite !engineValue_side by (now apply Reach_after).
  apply Num_le_Fin.
  rewrite <- !Engine_boardValue_plain by assumption.
  apply (FirstMax_greatest Z Z.lt Z.le Z.lt_le_incl _ _ _
                           (Z.le_refl _) Hf m' Hm').
Qed.

(** X14.  In the component that imports [engine.ts] the engine plays for
    the side to move: when its effect calls [makeMove] with a move at Easy,
    Hard or Master on a legal position, Black is to move and the move has
    the greatest depth-limited minimax value for the side to move, the
    root maximizing. *)
Theorem engine_effect_plays_for_the_mover {R : Rules} {S : Status R} :
  UndoRestores ->
  forall (mode : string) (g : Game) (difficulty : string) (rand : Q)
         (m : Move),
    In difficulty ["Easy"; "Hard"; "Master"]%string ->
    LegalFrom g ->
    App.engineEffect mode g difficulty rand = MakeMove (Some m) ->
    turn g = Black
    /\ Plain.BestFor (Num.Fin (-9999)) (Num.Fin 9999) (turn g) g
                     (Plain.depthOf difficulty) m.
Proof.
  intros undo_ok mode g difficulty rand m HD Hg Hcall.
  assert (HB : difficulty <> "Beginner"%string).
  { destruct HD as [<-|[<-|[<-|[]]]]; discriminate. }
  unfold App.engineEffect in Hcall.
  destruct (App.aiGuard mode g) eqn:Hguard; [|discriminate Hcall].
  destruct (aiGuard_true mode g Hguard) as (_ & Ht & _).
  split; [exact Ht|]. rewrite Ht.
  assert (Hne : moves g <> []).
  { intros E. unfold Engine.getBestMove in Hcall. rewrite E in Hcall.
    cbn in Hcall. discriminate Hcall. }
  destruct (Engine_best_for_black g difficulty rand undo_ok Hg HB Hne)
    as (m' & Em & Hbest).
  destruct (Engine.getBestMove g difficulty rand) as [mv g'].
  cbn [fst] in Em. subst mv. injection Hcall as <-. exact Hbest.
Qed.

Lemma engine_effect_plays_for_the_mover_witness :
  @turn PathGame.queenGame [] = Black
  /\ @Plain.BestFor PathGame.queenGame (Num.Fin (-9999)) (Num.Fin 9999)
       (@turn PathGame.queenGame []) [] 2 0%nat.
Proof.
  apply (@engine_effect_plays_for_the_mover PathGame.queenGame
           (stuckStatus PathGame.queenGame) (PathGame_undo _ _ _)
           "AI"%string [] "Hard"%string 0%Q 0%nat).
  - right; left; reflexivity.
  - apply PathGame_legal.
  - reflexivity.
Defined.

(** ** The evaluator as a count of pieces, and square by square *)

Lemma score_as_counts (l : list (option Piece)) :
  let n c t := Z.of_nat (List.length (filter (isPiece c t) l)) in
  fold_right Z.add 0 (List.map squareScore l)
  = 10 * (n White Pawn - n Black Pawn)
    + 30 * (n White Knight - n Black Knight)
    + 30 * (n White Bishop - n Black Bishop)
    + 50 * (n White Rook - n Black Rook)
    + 90 * (n White Queen - n Black Queen)
    + 900 * (n White King - n Black King).
Proof.
  cbn zeta. induction l as [|sq l IH]; [reflexivity|].
  cbn [List.map fold_right filter]. rewrite IH.
  destruct sq as [[[] []]|];
    cbn [isPiece Color_eqb PieceType_eqb pcolor ptype andb List.length
         squareScore pieceValue];
    lia.
Qed.

(** X15.  On an 8 by 8 board the score of [evaluateBoard] of [engine.ts]
    is the weighted surplus of White's pieces over Black's: 10 a pawn, 30 a
    knight or bishop, 50 a rook, 90 a queen, 900 a king.  Equal material
    scores 0 wherever the pieces stand. *)
Theorem score_is_weighted_surplus {R : Rules} (g : Game) :
  Board8x8 (board g) ->
  Engine.evaluateBoard g
  = 10 * surplus Pawn (board g) + 30 * surplus Knight (board g)
    + 30 * surplus Bishop (board g) + 50 * surplus Rook (board g)
    + 90 * surplus Queen (board g) + 900 * surplus King (board g).
Proof.
  intros H. rewrite evaluateBoard_material by exact H.
  unfold materialSum, surplus, countPieces.
  apply (score_as_counts (List.concat (board g))).
Qed.

Lemma score_is_weighted_surplus_witness :
  @Engine.evaluateBoard PathGame.upGame []
  = 10 * surplus Pawn (@board PathGame.upGame [])
    + 30 * surplus Knight (@board PathGame.upGame [])
    + 30 * surplus Bishop (@board PathGame.upGame [])
    + 50 * surplus Rook (@board PathGame.upGame [])
    + 90 * surplus Queen (@board PathGame.upGame [])
    + 900 * surplus King (@board PathGame.upGame []).
Proof.
  apply (@score_is_weighted_surplus PathGame.upGame []).
  apply PathGame_boards.
Defined.

Lemma length_update (A : Type) (l : list A) (n : nat) (f : A -> A) :
  List.length (update l n f) = List.length l.
Proof.
  revert n; induction l as [|x l IH]; intros [|n]; cbn; auto.
Qed.

Lemma sum_update (A : Type) (w : A -> Z) (d : A) (l : list A) (n : nat)
      (f : A -> A) :
  (n < List.length l)%nat ->
  fold_right Z.add 0 (List.map w (update l n f))
  = fold_right Z.add 0 (List.map w l) - w (nth n l d) + w (f (nth n l d)).
Proof.
  revert n; induction l as [|x l IH]; intros [|n] Hn; cbn in *; try lia.
  rewrite IH by lia. lia.
Qed.

Lemma Forall_update (A : Type) (P : A -> Prop) (l : list A) (n : nat)
      (f : A -> A) :
  (forall x, P x -> P (f x)) -> Forall P l -> Forall P (update l n f).
Proof.
  intros Hf H. revert n. induction H as [|x l Hx Hl IH]; intros [|n]; cbn;
    constructor; auto.
Qed.

Lemma materialSum_rows (b : Board) :
  materialSum b
  = fold_right Z.add 0
      (List.map (fun row => fold_right Z.add 0 (List.map squareScore row)) b).
Proof.
  unfold materialSum.
  induction b as [|r b IH]; cbn [List.concat List.map fold_right].
  - reflexivity.
  - now rewrite List.map_app, fold_right_add_app, IH.
Qed.

Lemma Board8x8_setSquare (b : Board) (i j : nat) (sq : option Piece) :
  Board8x8 b -> Board8x8 (setSquare b i j sq).
Proof.
  intros [Hlen Hrows]. unfold setSquare. split.
  - now rewrite length_update.
  - apply Forall_update; [|exact Hrows].
    intros row Hr. now rewrite length_update.
Qed.

Lemma materialSum_setSquare (b : Board) (i j : nat) (sq : option Piece) :
  Board8x8 b -> (i < 8)%nat -> (j < 8)%nat ->
  materialSum (setSquare b i j sq)
  = materialSum b - squareScore (at_ b i j) + squareScore sq.
Proof.
  intros [Hlen Hrows] Hi Hj. rewrite !materialSum_rows. unfold setSquare, at_.
  rewrite (sum_update _ _ [] b i) by lia.
  assert (Hrow : List.length (nth i b []) = 8%nat).
  { rewrite Forall_forall in Hrows. apply Hrows, nth_In. lia. }
  rewrite (sum_update _ squareScore None (nth i b []) j) by lia.
  lia.
Qed.

(** X16.  On an 8 by 8 board, putting a piece or nothing on one square
    changes the score of [evaluateBoard] of [engine.ts] by the value of
    what comes less the value of what stood there, and by nothing else:
    the score has no positional part. *)
Theorem one_square_changes_the_score {R : Rules} (g g' : Game) (i j : nat)
        (sq : option Piece) :
  Board8x8 (board g) -> (i < 8)%nat -> (j < 8)%nat ->
  board g' = setSquare (board g) i j sq ->
  Engine.evaluateBoard g'
  = Engine.evaluateBoard g - Engine.getPieceValue (at_ (board g) i j)
    + Engine.getPieceValue sq.
Proof.
  intros Hb Hi Hj E.
  rewrite !evaluateBoard_material, !getPieceValue_score;
    [| exact Hb | rewrite E; now apply Board8x8_setSquare].
  rewrite E. now apply materialSum_setSquare.
Qed.

Lemma one_square_changes_the_score_witness :
  @Engine.evaluateBoard PathGame.pawnGame [0%nat]
  = @Engine.evaluateBoard PathGame.pawnGame []
    - Engine.getPieceValue (at_ (@board PathGame.pawnGame []) 6 0)
    + Engine.getPieceValue (Some (mkPiece Pawn White)).
Proof.
  apply (@one_square_changes_the_score PathGame.pawnGame [] [0%nat] 6 0
           (Some (mkPiece Pawn White))).
  - apply PathGame_boards.
  - lia.
  - lia.
  - reflexivity.
Defined.

(** ** Asking twice *)

(** ** The move list and the squares of the App components *)

Lemma pairs_ind (P : list string -> Prop) :
  P [] -> (forall a, P [a]) ->
  (forall a b rest, P rest -> P (a :: b :: rest)) ->
  forall l, P l.
Proof.
  intros H0 H1 H2 l.
  assert (H : P l /\ forall a, P (a :: l)).
  { induction l as [|x l [IHl IHxl]]; split; auto. }
  exact (proj1 H).
Qed.

Lemma pushLast_snoc (acc : list (list string)) (last : list string)
      (move : string) :
  History.pushLast (acc ++ [last]) move = Some (acc ++ [last ++ [move]]).
Proof.
  unfold History.pushLast. rewrite rev_app_distr. cbn [rev app].
  now rewrite rev_involutive.
Qed.

Lemma reduceFrom_pairs (moveHistory : list string) :
  forall (i : nat) (acc : list (list string)),
    (i mod 2 = 0)%nat ->
    History.reduceFrom i acc moveHistory = Some (acc ++ pairsOf moveHistory).
Proof.
  induction moveHistory as [|a|a b rest IH] using pairs_ind; intros i acc Hi.
  - cbn. now rewrite app_nil_r.
  - cbn [History.reduceFrom pairsOf]. unfold History.pairUp.
    rewrite Hi. reflexivity.
  - cbn [History.reduceFrom pairsOf]. unfold History.pairUp at 1.
    rewrite Hi. cbn [Nat.eqb]. unfold History.pairUp.
    assert (Hs : (S i mod 2 = 1)%nat).
    { change (S i) with (1 + i)%nat.
      rewrite <- Nat.Div0.add_mod_idemp_r, Hi. reflexivity. }
    rewrite Hs. cbn [Nat.eqb]. rewrite pushLast_snoc.
    rewrite IH.
    + now rewrite <- app_assoc.
    + change (S (S i)) with (2 + i)%nat.
      rewrite <- Nat.Div0.add_mod_idemp_r, Hi. reflexivity.
Qed.

Lemma rounds_pairs (moveHistory : list string) :
  History.rounds moveHistory = Some (pairsOf moveHistory).
Proof. exact (reduceFrom_pairs moveHistory 0 [] eq_refl). Qed.

Lemma concat_pairs (l : list string) : List.concat (pairsOf l) = l.
Proof.
  induction l as [|a|a b rest IH] using pairs_ind; cbn; [easy|easy|].
  cbn in IH. now rewrite IH.
Qed.

Lemma length_pairs (l : list string) :
  List.length (pairsOf l) = ((List.length l + 1) / 2)%nat.
Proof.
  induction l as [|a|a b rest IH] using pairs_ind; [reflexivity|reflexivity|].
  cbn [pairsOf List.length]. rewrite IH.
  replace (S (S (List.length rest)) + 1)%nat
    with ((List.length rest + 1) + 1 * 2)%nat by lia.
  rewrite Nat.div_add by discriminate. lia.
Qed.

Lemma rows_pairs (l : list string) :
  forall k pair, nth_error (pairsOf l) k = Some pair ->
    List.length pair = 2%nat
    \/ (List.length pair = 1%nat
        /\ S k = List.length (pairsOf l) /\ Nat.odd (List.length l) = true).
Proof.
  induction l as [|a|a b rest IH] using pairs_ind; intros k pair Hk.
  - destruct k; discriminate.
  - destruct k as [|[|k]]; try discriminate.
    injection Hk as <-. right. repeat split.
  - destruct k as [|k].
    + injection Hk as <-. now left.
    + cbn [pairsOf nth_error] in Hk.
      destruct (IH k pair Hk) as [H2|(H1 & Hlast & Hodd)]; [now left|right].
      cbn [pairsOf List.length]. repeat split; [exact H1|now rewrite Hlast|].
      exact Hodd.
Qed.

Lemma place_pairs (l : list string) :
  forall i move, nth_error l i = Some move ->
    exists pair, nth_error (pairsOf l) (i / 2) = Some pair
                 /\ nth_error pair (i mod 2) = Some move.
Proof.
  induction l as [|a|a b rest IH] using pairs_ind; intros i move Hi.
  - destruct i; discriminate.
  - destruct i as [|[|i]]; try discriminate.
    exists [a]. split; [reflexivity|exact Hi].
  - destruct i as [|[|i]].
    + exists [a; b]. split; [reflexivity|exact Hi].
    + exists [a; b]. split; [reflexivity|exact Hi].
    + cbn [nth_error] in Hi. destruct (IH i move Hi) as (pair & Hp & Hm).
      exists pair.
      replace (S (S i)) with (i + 1 * 2)%nat by lia.
      rewrite Nat.div_add by discriminate.
      rewrite Nat.Div0.mod_add.
      replace (i / 2 + 1)%nat with (S (i / 2)) by lia.
      cbn [pairsOf nth_error]. now split.
Qed.

Lemma Qceiling_half (n : Z) : Qceiling (inject_Z n / 2) = (n + 1) / 2.
Proof.
  unfold Qceiling, Qfloor, Qopp, Qdiv, Qmult, Qinv, inject_Z. cbn.
  rewrite Z.mul_1_r. Z.to_euclidean_division_equations. lia.
Qed.

Lemma Qfloor_half (n : Z) : Qfloor (inject_Z n / 2) = n / 2.
Proof.
  unfold Qfloor, Qdiv, Qmult, Qinv, inject_Z. cbn.
  now rewrite Z.mul_1_r.
Qed.

Lemma mapFrom_index {A B : Type} (f : nat -> B) (l : list A) :
  forall i, mapFrom i (fun _ k => f k) l = map f (seq i (List.length l)).
Proof.
  induction l as [|x l IH]; intros i; cbn; [reflexivity|].
  now rewrite IH.
Qed.

Lemma mapFrom_rows {A B : Type} (f : nat -> list B)
      (g : list A -> nat -> list B) (rows : list (list A)) :
  (forall row k, In row rows -> g row k = f k) ->
  forall i, mapFrom i g rows = map f (seq i (List.length rows)).
Proof.
  induction rows as [|r rows IH]; intros Hg i; cbn; [reflexivity|].
  rewrite Hg by now left.
  rewrite IH; [reflexivity|]. intros row k Hin. apply Hg. now right.
Qed.

(** X17.  The Match Logs panel loses no move: the [reduce] that pairs the
    move list never throws, the rows read in order give back the move list,
    and every row holds two moves, but for the last row, which holds one
    when the number of moves is odd. *)
Theorem match_log_keeps_every_move (moveHistory : list string) :
  exists rows : list (list string),
    History.rounds moveHistory = Some rows
    /\ List.concat rows = moveHistory
    /\ forall (k : nat) (pair : list string),
         nth_error rows k = Some pair ->
         List.length pair = 2%nat
         \/ (List.length pair = 1%nat
             /\ S k = List.length rows
             /\ Nat.odd (List.length moveHistory) = true).
Proof.
  exists (pairsOf moveHistory).
  split; [apply rounds_pairs|].
  split; [apply concat_pairs|apply rows_pairs].
Qed.

(** X18.  The ROUNDS badge and the move labels agree with the rows of the
    panel: the badge [Math.ceil(moveHistory.length / 2)] is the number of
    rows, and move [i] stands in the row whose number is the number
    [Math.floor(i/2) + 1] of its label, in the first column when the label
    ends in one dot and in the second when it ends in three. *)
Theorem badge_and_labels_match_the_rows
        (moveHistory : list string) (rows : list (list string)) :
  History.rounds moveHistory = Some rows ->
  Z.of_nat (List.length rows) = History.roundsBadge moveHistory
  /\ forall (i : nat) (move : string),
       nth_error moveHistory i = Some move ->
       exists (k : nat) (pair : list string),
         History.rowNumber k = fst (History.moveLabel i)
         /\ nth_error rows k = Some pair
         /\ nth_error pair
              (if (snd (History.moveLabel i) =? ".")%string then 0 else 1)
            = Some move.
Proof.
  rewrite rounds_pairs. intros [= <-]. split.
  - unfold History.roundsBadge. rewrite Qceiling_half, length_pairs.
    rewrite Nat2Z.inj_div, Nat2Z.inj_add. reflexivity.
  - intros i move Hi.
    destruct (place_pairs moveHistory i move Hi) as (pair & Hp & Hm).
    exists (i / 2)%nat, pair. repeat split.
    + unfold History.rowNumber, History.moveLabel. cbn [fst].
      rewrite Qfloor_half, Nat2Z.inj_div. reflexivity.
    + exact Hp.
    + unfold History.moveLabel. cbn [snd].
      assert (H2 : (i mod 2 < 2)%nat)
        by (apply Nat.mod_upper_bound; discriminate).
      destruct (i mod 2)%nat as [|[|r]]; [exact Hm|exact Hm|lia].
Qed.

Lemma badge_and_labels_match_the_rows_witness :
  Z.of_nat (List.length [["e4"; "e5"]; ["Nf3"]]%string)
  = History.roundsBadge ["e4"; "e5"; "Nf3"]%string
  /\ forall (i : nat) (move : string),
       nth_error ["e4"; "e5"; "Nf3"]%string i = Some move ->
       exists (k : nat) (pair : list string),
         History.rowNumber k = fst (History.moveLabel i)
         /\ nth_error [["e4"; "e5"]; ["Nf3"]]%string k = Some pair
         /\ nth_error pair
              (if (snd (History.moveLabel i) =? ".")%string then 0 else 1)
            = Some move.
Proof.
  apply (badge_and_labels_match_the_rows ["e4"; "e5"; "Nf3"]%string).
  reflexivity.
Defined.

(** X19.  The three boards show the same squares: on a board of eight rows
    of eight entries the cells of [board.flat().map], of the nested
    [board.map] and of [renderBoard] carry the same square names in the
    same order, from a8 to h1, with the same squares dark; the list has 64
    cells and no square appears twice. *)
Theorem boards_show_the_same_squares (board : Board) :
  Board8x8 board ->
  Squares.flatCells board = Squares.renderBoard
  /\ Squares.gridCells board = Squares.renderBoard
  /\ NoDup (map fst Squares.renderBoard)
  /\ List.length Squares.renderBoard = 64%nat.
Proof.
  intros [Hlen Hrows]. repeat split.
  - unfold Squares.flatCells. rewrite mapFrom_index.
    rewrite (length_concat_8 board Hrows), Hlen. vm_compute. reflexivity.
  - unfold Squares.gridCells.
    rewrite (mapFrom_rows
               (fun rowIndex => map (Squares.gridCell rowIndex) (seq 0 8))).
    + rewrite Hlen. vm_compute. reflexivity.
    + intros row k Hin. rewrite mapFrom_index.
      rewrite Forall_forall in Hrows. now rewrite (Hrows row Hin).
  - assert (H : nodup string_dec (map fst Squares.renderBoard)
                = map fst Squares.renderBoard) by (vm_compute; reflexivity).
    rewrite <- H. apply NoDup_nodup.
Qed.

Lemma boards_show_the_same_squares_witness :
  Squares.flatCells (repeat (repeat None 8) 8) = Squares.renderBoard
  /\ Squares.gridCells (repeat (repeat None 8) 8) = Squares.renderBoard
  /\ NoDup (map fst Squares.renderBoard)
  /\ List.length Squares.renderBoard = 64%nat.
Proof.
  apply (boards_show_the_same_squares (repeat (repeat None 8) 8)).
  split; [reflexivity|]. repeat constructor.
Defined.
